(** * Restaurant Matrix: the places proxy and the client-side filter

    A shallow embedding of the two programs of the repository:

    - the route handler [GET] of the serverless proxy (an in-memory cache
      with a time-to-live in front of the Places text-search API, followed
      by normalisation and server-side filtering of the upstream records);
    - the derived state of the [RestaurantMatrix] component
      ([availableTypes] and [filtered]).

    JavaScript values are modelled as follows.  A [number] is a double: the
    only operations the code performs on numbers are comparisons and
    [Array.prototype.includes], both exact, so a finite double is
    represented by the rational it denotes, next to the two infinities and
    NaN.  Timestamps ([Date.now()]) are integers.  A string is a sequence
    of code units, written with Rocq's [string].  An optional field
    ([x?: T], also a JSON [null]) is an [option]. *)

From Stdlib Require Import ZArith QArith Bool List Ascii Lia.
From stdpp Require Import gmap strings list sorting.

Local Open Scope Z_scope.

(* A proof depends on the section variables of its statement only. *)
#[local] Set Default Proof Using "Type".

(** ** Numbers *)

Inductive number : Type :=
| NaN
| Inf (positive : bool)
| Fin (q : Q).

(** The outcome of comparing two numbers; [None] is "undefined", the
    answer of the abstract relational comparison when an operand is NaN. *)
Definition num_compare (a b : number) : option comparison :=
  match a, b with
  | NaN, _ | _, NaN => None
  | Fin x, Fin y => Some (x ?= y)%Q
  | Inf s, Inf s' =>
      Some (if s then (if s' then Eq else Gt) else (if s' then Lt else Eq))
  | Inf s, Fin _ => Some (if s then Gt else Lt)
  | Fin _, Inf s => Some (if s then Lt else Gt)
  end.

(** [a < b], [a <= b], [a > b], [a >= b]. *)
Definition js_lt (a b : number) : bool :=
  match num_compare a b with Some Lt => true | _ => false end.
Definition js_le (a b : number) : bool :=
  match num_compare a b with Some Lt | Some Eq => true | _ => false end.
Definition js_gt (a b : number) : bool := js_lt b a.
Definition js_ge (a b : number) : bool := js_le b a.

(** SameValueZero, the equality used by [Array.prototype.includes]. *)
Definition same_value_zero (a b : number) : bool :=
  match a, b with
  | NaN, NaN => true
  | _, _ => match num_compare a b with Some Eq => true | _ => false end
  end.

Definition array_includes (l : list number) (x : number) : bool :=
  existsb (fun y => same_value_zero y x) l.

Definition is_NaN (a : number) : bool :=
  match a with NaN => true | _ => false end.

Definition num (z : Z) : number := Fin (inject_Z z).

(** ** Data model *)

(** A record of the upstream response ([PlaceResponse.places[i]]). *)
Module Raw.
Record DisplayName := { text : string }.
Record OpeningHours := { openNow : option bool }.
Record t := mk {
  id : string;
  placeId : string;
  displayName : option DisplayName;
  rating : option number;
  userRatingCount : option number;
  priceLevel : option number;
  types : option (list string);
  currentOpeningHours : option OpeningHours;
  businessStatus : option string;
}.
End Raw.

Record PlaceResponse := { places : option (list Raw.t) }.

(** The canonical record ([interface Place]). *)
Module Place.
Record t := mk {
  id : string;
  place_id : string;
  name : string;
  rating : number;
  user_ratings_total : number;
  price_level : number;
  types : list string;
  open_now : option bool;
}.
End Place.

(** ** The normaliser and the server-side filters *)

Definition PRICE_LEVELS : list number := [num 0; num 1; num 2; num 3; num 4].

(** [p.businessStatus === "OPERATIONAL"] *)
Definition isOperational (p : Raw.t) : bool :=
  match Raw.businessStatus p with
  | Some s => String.eqb s "OPERATIONAL"
  | None => false
  end.

(** The object literal built by the [.map] callback. *)
Definition toPlace (p : Raw.t) : Place.t :=
  {| Place.id := Raw.id p;
     Place.place_id := Raw.placeId p;
     Place.name := default "Unknown" (Raw.text <$> Raw.displayName p);
     Place.rating := default (num 0) (Raw.rating p);
     Place.user_ratings_total := default (num 0) (Raw.userRatingCount p);
     Place.price_level :=
       match Raw.priceLevel p with
       | Some x => if array_includes PRICE_LEVELS x then x else num 0
       | None => num 0
       end;
     Place.types := default [] (Raw.types p);
     Place.open_now := Raw.currentOpeningHours p ≫= Raw.openNow |}.

(** [(json.places ?? []).filter(...).map(...)]: the first two stages of
    the pipeline that computes [mapped]. *)
Definition normalize (json : PlaceResponse) : list Place.t :=
  List.map toPlace (List.filter isOperational (default [] (places json))).

(** [p.price_level >= minPrice && p.price_level <= maxPrice] *)
Definition server_price_ok (minPrice maxPrice : number) (p : Place.t) : bool :=
  js_ge (Place.price_level p) minPrice && js_le (Place.price_level p) maxPrice.

(** [p.open_now !== false] *)
Definition not_false (o : option bool) : bool :=
  match o with Some false => false | _ => true end.

(** [p.open_now === false] *)
Definition is_false (o : option bool) : bool :=
  match o with Some false => true | _ => false end.

(** The callback of the last [.filter] of the pipeline. *)
Definition server_open_ok (openNow : bool) (p : Place.t) : bool :=
  if openNow then not_false (Place.open_now p) else true.

(** The whole pipeline of the handler, from the parsed upstream body to
    the list that is cached and returned. *)
Definition mapped (openNow : bool) (minPrice maxPrice : number)
    (json : PlaceResponse) : list Place.t :=
  List.filter (server_open_ok openNow)
    (List.filter (server_price_ok minPrice maxPrice) (normalize json)).

(** ** The client: filter state and string helpers *)

Record FilterState := {
  search : string;
  openNowOnly : bool;
  priceRange : number * number;
  selectedType : string;
}.

(** The initial values of the four [useState] hooks. *)
Definition defaultFilters : FilterState :=
  {| search := ""; openNowOnly := false;
     priceRange := (num 0, num 4); selectedType := "" |}.

(** Truthiness of a string: only the empty string is falsy. *)
Definition truthy (s : string) : bool :=
  match s with EmptyString => false | String _ _ => true end.

(** [s.includes(sub)] on strings. *)
Fixpoint string_includes (s sub : string) : bool :=
  if String.prefix sub s then true
  else match s with
       | EmptyString => false
       | String _ s' => string_includes s' sub
       end.

(** [l.includes(x)] on an array of strings. *)
Definition list_includes (l : list string) (x : string) : bool :=
  existsb (String.eqb x) l.

(** [set.add(t)] on a [Set<string>], which keeps insertion order. *)
Definition set_add (set : list string) (t : string) : list string :=
  if list_includes set t then set else set ++ [t].

(** [Array.from(set).sort()] on strings: ascending order of code units. *)
Definition sort (l : list string) : list string := merge_sort String.le l.

(** The [useMemo] that computes the options of the type selector. *)
Definition availableTypes (data : list Place.t) : list string :=
  sort (fold_left (fun set p => fold_left set_add (Place.types p) set) data []).

(** ** The handler: requests, responses, effects *)

Record NextRequest := { searchParams : string -> option string }.

(** The object that is serialised into the cache key. *)
Module Params.
Record t := mk {
  q : string;
  openNow : bool;
  minPrice : number;
  maxPrice : number;
  type : string;
}.
End Params.

(** The JSON body of the outbound POST. *)
Record Body := {
  textQuery : string;
  maxResultCount : Z;
  includedType : string;
  languageCode : string;
  regionCode : string;
}.

(** What [fetch] resolves to: the [ok] flag, the raw body ([res.text()])
    and the parsed body ([res.json()]), which is absent when the body is
    not JSON: [res.json()] then rejects.  The raw body of a response that
    arrived is taken as readable. *)
Record Response := { ok : bool; text : string; json : option PlaceResponse }.

Inductive JsonBody :=
| PlacesBody (places : list Place.t)
| ErrorBody (error : string).

(** [NextResponse.json(body, { status })]. *)
Record NextResponse := { body : JsonBody; status : Z }.

(** How a run of the handler ends: it returns a response, or it throws,
    because a promise it awaits rejects and it has no [try]. *)
Inductive Result :=
| Answer (resp : NextResponse)
| Throws.

Record CacheEntry := { t : Z; data : list Place.t }.

Definition TTL : Z := 1000 * 60 * 60 * 12.

(** The interactions of the handler with the outside world.  [fetch]
    answers with a response, or with nothing when the promise rejects. *)
Inductive Eff : Type -> Type :=
| DateNow : Eff Z
| Fetch (b : Body) : Eff (option Response)
| ConsoleError (msg detail : string) : Eff unit.

Inductive Prog (A : Type) : Type :=
| Ret (a : A)
| Vis {X : Type} (e : Eff X) (k : X -> Prog A).
Arguments Ret {A} a.
Arguments Vis {A X} e k.

Notation "'let!' x ':=' e 'in' k" := (Vis e (fun x => k))
  (at level 10, x name, e at level 100, k at level 200).

(** An event of a run, with the answer the world gave. *)
Inductive IOEvent :=
| EvNow (now : Z)
| EvFetch (b : Body) (res : Response)
| EvFetchRejected (b : Body)
| EvLog (msg detail : string).

(** The world answers each interaction, possibly depending on everything
    that happened before. *)
Record World := {
  clock : list IOEvent -> Z;
  upstream : list IOEvent -> Body -> option Response;
}.

Definition answer (w : World) (hist : list IOEvent) {X} (e : Eff X) : X :=
  match e in Eff X return X with
  | DateNow => clock w hist
  | Fetch b => upstream w hist b
  | ConsoleError _ _ => tt
  end.

Definition event {X} (e : Eff X) : X -> IOEvent :=
  match e in Eff X return X -> IOEvent with
  | DateNow => EvNow
  | Fetch b =>
      fun o => match o with
               | Some res => EvFetch b res
               | None => EvFetchRejected b
               end
  | ConsoleError m d => fun _ => EvLog m d
  end.

(** Runs a program in a world; returns its result and the whole history. *)
Fixpoint run {A} (w : World) (hist : list IOEvent) (p : Prog A)
    : A * list IOEvent :=
  match p with
  | Ret a => (a, hist)
  | Vis e k =>
      let x := answer w hist e in
      run w (hist ++ [event e x]) (k x)
  end.

Definition is_fetch (ev : IOEvent) : bool :=
  match ev with EvFetch _ _ | EvFetchRejected _ => true | _ => false end.

(** The number of calls made to the external API during a run. *)
Definition fetch_count (tr : list IOEvent) : nat :=
  length (List.filter is_fetch tr).

(** ** Specification vocabulary for the data model *)

(** The order of the extended reals on numbers; NaN is related to nothing. *)
Definition num_le (a b : number) : Prop :=
  match a, b with
  | Fin x, Fin y => (x <= y)%Q
  | Inf false, (Inf _ | Fin _) => True
  | (Inf _ | Fin _), Inf true => True
  | _, _ => False
  end.

(** A price tier is one of the integers 0 to 4. *)
Definition is_tier (a : number) : Prop :=
  exists k : Z, 0 <= k <= 4 /\ match a with Fin x => (x == inject_Z k)%Q | _ => False end.

(** The invariants of the data model on a canonical record. *)
Definition place_inv (p : Place.t) : Prop :=
  num_le (num 0) (Place.price_level p) /\ num_le (Place.price_level p) (num 4)
  /\ num_le (num 0) (Place.rating p)
  /\ num_le (num 0) (Place.user_ratings_total p).

(** A raw record whose rating and review count, when present, are not
    negative. *)
Definition raw_nonneg (r : Raw.t) : Prop :=
  (forall x, Raw.rating r = Some x -> num_le (num 0) x)
  /\ (forall x, Raw.userRatingCount r = Some x -> num_le (num 0) x).

Ltac solve_num_le := unfold num_le, num, Qle; simpl; lia.

(** Every record of a list has a price tier among 0 to 4. *)
Definition tiers_ok (l : list Place.t) : Prop :=
  Forall (fun p => is_tier (Place.price_level p)) l.

(** ** The client: the data-loading effect *)

(** The parsed body of the answer of [/api/places], of which the client
    reads [json.places] only. *)
Module Api.
Record t := { places : option (list Place.t) }.
End Api.

(** What [fetch("/api/places")] followed by [res.json()] ends in: a parsed
    body, or an exception (the request fails, or the body is not JSON). *)
Inductive Fetched :=
| Parsed (json : Api.t)
| Thrown.

(** The state of the component: the records, the four filter controls and
    the loading flag. *)
Module View.
Record t := mk { data : list Place.t; filters : FilterState; loading : bool }.
End View.

(** The initial values of the [useState] hooks, given the [initialData]
    prop. *)
Definition initialView (initialData : option (list Place.t)) : View.t :=
  {| View.data := default [] initialData;
     View.filters := defaultFilters;
     View.loading := false |}.

Definition setData (l : list Place.t) (v : View.t) : View.t :=
  {| View.data := l; View.filters := View.filters v;
     View.loading := View.loading v |}.
Definition setLoading (b : bool) (v : View.t) : View.t :=
  {| View.data := View.data v; View.filters := View.filters v;
     View.loading := b |}.

(** The effect run on mount.  An [initialData] prop, even an empty array,
    is truthy and skips it.  Otherwise [load] raises the loading flag,
    stores [json.places ?? []] when the body was parsed, only logs when
    something was thrown, and in both cases lowers the flag ([finally]). *)
Definition load (initialData : option (list Place.t)) (fetched : Fetched)
    (v : View.t) : View.t :=
  match initialData with
  | Some _ => v
  | None =>
      let v1 := setLoading true v in
      let v2 :=
        match fetched with
        | Parsed json => setData (default [] (Api.places json)) v1
        | Thrown => v1
        end in
      setLoading false v2
  end.

(** The body of a handler response as the client parses it: an error
    body has no [places]. *)
Definition parsedBody (resp : NextResponse) : Api.t :=
  match body resp with
  | PlacesBody l => {| Api.places := Some l |}
  | ErrorBody _ => {| Api.places := None |}
  end.

(** ** The built-ins of the runtime

    [String.prototype.toLowerCase], [Number(s)] and [JSON.stringify] (on
    the key object) belong to the JavaScript runtime; the programs take
    them from this interface. *)
Class Runtime := {
  toLowerCase : string -> string;
  Number : string -> number;
  stringify : Params.t -> string;
}.

(** An instance for evaluating examples, which covers plain decimal
    numerals and ASCII letters, and sample data. *)
Module Example.
Definition digit (c : ascii) : option Z :=
  let n := Z.of_N (Ascii.N_of_ascii c) in
  if (48 <=? n) && (n <=? 57) then Some (n - 48) else None.

Fixpoint digits (acc : Z) (s : string) : option Z :=
  match s with
  | EmptyString => Some acc
  | String c s' =>
      match digit c with
      | Some d => digits (10 * acc + d) s'
      | None => None
      end
  end.

Definition Number (s : string) : number :=
  match digits 0 s with Some z => num z | None => NaN end.

Definition lower (c : ascii) : ascii :=
  let n := Ascii.N_of_ascii c in
  if ((65 <=? n) && (n <=? 90))%N then Ascii.ascii_of_N (n + 32) else c.

Fixpoint toLowerCase (s : string) : string :=
  match s with
  | EmptyString => EmptyString
  | String c s' => String (lower c) (toLowerCase s')
  end.

Definition show_number (n : number) : string :=
  match n with
  | Fin (Qmake a 1) =>
      match a with
      | 0 => "0" | 1 => "1" | 2 => "2" | 3 => "3" | 4 => "4"
      | _ => "n"
      end
  | Fin _ => "n"
  | _ => "null"
  end.

Definition stringify (k : Params.t) : string :=
  "{q:" +:+ Params.q k
    +:+ ",openNow:" +:+ (if Params.openNow k then "true" else "false")
    +:+ ",minPrice:" +:+ show_number (Params.minPrice k)
    +:+ ",maxPrice:" +:+ show_number (Params.maxPrice k)
    +:+ ",type:" +:+ Params.type k +:+ "}".

Definition runtime : Runtime := Build_Runtime toLowerCase Number stringify.

(** A mock upstream: three operating records and one that is not. *)
Definition raw_a : Raw.t :=
  Raw.mk "a" "pa" (Some {| Raw.text := "Sushi Bar" |}) (Some (Fin (9 # 2)))
    (Some (num 1200)) (Some (num 2)) (Some ["sushi"; "restaurant"])
    (Some {| Raw.openNow := Some true |}) (Some "OPERATIONAL").
Definition raw_b : Raw.t :=
  Raw.mk "b" "pb" None None None (Some (num 7)) None None
    (Some "OPERATIONAL").
Definition raw_c : Raw.t :=
  Raw.mk "c" "pc" (Some {| Raw.text := "Ramen Ya" |}) (Some (num 4))
    (Some (num 80)) (Some (num 3)) (Some ["ramen"; "restaurant"])
    (Some {| Raw.openNow := Some false |}) (Some "OPERATIONAL").
Definition raw_d : Raw.t :=
  Raw.mk "d" "pd" (Some {| Raw.text := "Old Diner" |}) (Some (num 3))
    (Some (num 15)) (Some (num 1)) (Some ["diner"])
    (Some {| Raw.openNow := Some true |}) (Some "CLOSED_TEMPORARILY").
Definition raws : list Raw.t := [raw_a; raw_b; raw_c; raw_d].

(** An operating record with a negative rating and review count. *)
Definition raw_negative : Raw.t :=
  Raw.mk "n" "pn" (Some {| Raw.text := "Nowhere" |}) (Some (num (-1)))
    (Some (num (-5))) (Some (num 2)) None None (Some "OPERATIONAL").

Definition json_up : PlaceResponse := {| places := Some raws |}.
Definition response_up : Response :=
  {| ok := true; text := "{...}"; json := Some json_up |}.
Definition response_down : Response :=
  {| ok := false; text := "quota exceeded"; json := None |}.

(** A success answer whose body is not JSON. *)
Definition response_garbled : Response :=
  {| ok := true; text := "<html>"; json := None |}.

(** Two worlds: the clock advances by one second per event; the
    upstream always succeeds, or always fails. *)
Definition world_up : World :=
  {| clock := fun hist => 100000000 + 1000 * Z.of_nat (length hist);
     upstream := fun _ _ => Some response_up |}.
Definition world_down : World :=
  {| clock := fun hist => 100000000 + 1000 * Z.of_nat (length hist);
     upstream := fun _ _ => Some response_down |}.

(** Two more: the upstream answers 200 with a body that does not parse,
    or cannot be reached at all. *)
Definition world_garbled : World :=
  {| clock := fun hist => 100000000 + 1000 * Z.of_nat (length hist);
     upstream := fun _ _ => Some response_garbled |}.
Definition world_unreachable : World :=
  {| clock := fun hist => 100000000 + 1000 * Z.of_nat (length hist);
     upstream := fun _ _ => None |}.

(** [?q=sushi&openNow=true&minPrice=1&maxPrice=3&type=restaurant] *)
Definition req_sushi : NextRequest :=
  {| searchParams := fun k =>
       if String.eqb k "q" then Some "sushi"
       else if String.eqb k "openNow" then Some "true"
       else if String.eqb k "minPrice" then Some "1"
       else if String.eqb k "maxPrice" then Some "3"
       else if String.eqb k "type" then Some "restaurant"
       else None |}.

Definition place_a : Place.t :=
  Place.mk "a" "pa" "Sushi Bar" (Fin (9 # 2)) (num 1200) (num 2)
    ["sushi"; "restaurant"] (Some true).
Definition place_c : Place.t :=
  Place.mk "c" "pc" "Ramen Ya" (num 4) (num 80) (num 3)
    ["ramen"; "restaurant"] (Some false).

(** An entry that is half a second old when those clocks are first
    read, and one that is more than a day old. *)
Definition entry : CacheEntry := {| t := 99999500; data := [place_c] |}.
Definition stale_entry : CacheEntry := {| t := 1000; data := [place_c] |}.
End Example.

Section Programs.

Context {R : Runtime}.

(** *** The client-side filter *)

(** [search && !p.name.toLowerCase().includes(search.toLowerCase())] *)
Definition name_rejects (search : string) (p : Place.t) : bool :=
  truthy search
  && negb (string_includes (toLowerCase (Place.name p)) (toLowerCase search)).

(** [openNowOnly && p.open_now === false] *)
Definition open_rejects (openNowOnly : bool) (p : Place.t) : bool :=
  openNowOnly && is_false (Place.open_now p).

(** [p.price_level < priceRange[0] || p.price_level > priceRange[1]] *)
Definition price_rejects (priceRange : number * number) (p : Place.t) : bool :=
  js_lt (Place.price_level p) (fst priceRange)
  || js_gt (Place.price_level p) (snd priceRange).

(** [selectedType && !p.types.includes(selectedType)] *)
Definition type_rejects (selectedType : string) (p : Place.t) : bool :=
  truthy selectedType && negb (list_includes (Place.types p) selectedType).

(** The callback of [data.filter] in the [filtered] memo. *)
Definition keep (f : FilterState) (p : Place.t) : bool :=
  if name_rejects (search f) p then false
  else if open_rejects (openNowOnly f) p then false
  else if price_rejects (priceRange f) p then false
  else if type_rejects (selectedType f) p then false
  else true.

Definition filtered (data : list Place.t) (f : FilterState) : list Place.t :=
  List.filter (keep f) data.

(** *** The route handler *)

(** The five parameters read from the query string, with their defaults. *)
Definition params (req : NextRequest) : Params.t :=
  {| Params.q := default "restaurants in Boston, MA" (searchParams req "q");
     Params.openNow :=
       match searchParams req "openNow" with
       | Some s => String.eqb s "true"
       | None => false
       end;
     Params.minPrice := Number (default "0" (searchParams req "minPrice"));
     Params.maxPrice := Number (default "4" (searchParams req "maxPrice"));
     Params.type := default "" (searchParams req "type") |}.

Definition cacheKey (req : NextRequest) : string := stringify (params req).

Definition requestBody (k : Params.t) : Body :=
  {| textQuery := Params.q k;
     maxResultCount := 50;
     includedType := if truthy (Params.type k) then Params.type k else "restaurant";
     languageCode := "en";
     regionCode := "US" |}.

(** The part of the handler after the cache check: one call to the
    external API, then either the error response or normalisation,
    filtering and the store into the cache.  When [fetch] or [res.json()]
    rejects, the handler throws at that [await]: nothing after it runs. *)
Definition refresh (req : NextRequest) (CACHE : gmap string CacheEntry)
    : Prog (Result * gmap string CacheEntry) :=
  let k := params req in
  let! fetched := Fetch (requestBody k) in
  match fetched with
  | None => Ret (Throws, CACHE)
  | Some res =>
      if negb (ok res) then
        let! _ := ConsoleError "Error calling Places API" (text res) in
        Ret (Answer {| body := ErrorBody (text res); status := 500 |}, CACHE)
      else
        match json res with
        | None => Ret (Throws, CACHE)
        | Some json =>
            let mapped :=
              mapped (Params.openNow k) (Params.minPrice k)
                (Params.maxPrice k) json in
            let! now := DateNow in
            Ret (Answer {| body := PlacesBody mapped; status := 200 |},
                 <[cacheKey req := {| t := now; data := mapped |}]> CACHE)
        end
  end.

(** The handler, as a function of the module-level [CACHE]; it ends with
    a result and the cache it leaves behind.  [Date.now()] is only read
    at the check when an entry exists ([&&] short-circuits). *)
Definition GET (req : NextRequest) (CACHE : gmap string CacheEntry)
    : Prog (Result * gmap string CacheEntry) :=
  match CACHE !! cacheKey req with
  | Some cached =>
      let! now := DateNow in
      if now - t cached <? TTL
      then Ret (Answer {| body := PlacesBody (data cached); status := 200 |},
                CACHE)
      else refresh req CACHE
  | None => refresh req CACHE
  end.

(** The state setters [setSearch] and [setOpenNowOnly], on the whole
    filter state. *)
Definition setSearch (s : string) (f : FilterState) : FilterState :=
  {| search := s; openNowOnly := openNowOnly f;
     priceRange := priceRange f; selectedType := selectedType f |}.
Definition setOpenNowOnly (b : bool) (f : FilterState) : FilterState :=
  {| search := search f; openNowOnly := b;
     priceRange := priceRange f; selectedType := selectedType f |}.

(** The state setters [setSelectedType] and [setPriceRange]. *)
Definition setSelectedType (ty : string) (f : FilterState) : FilterState :=
  {| search := search f; openNowOnly := openNowOnly f;
     priceRange := priceRange f; selectedType := ty |}.
Definition setPriceRange (r : number * number) (f : FilterState) : FilterState :=
  {| search := search f; openNowOnly := openNowOnly f;
     priceRange := r; selectedType := selectedType f |}.

(** The list handed to the chart: the records of the view under its
    filters. *)
Definition shown (v : View.t) : list Place.t :=
  filtered (View.data v) (View.filters v).

(** The caches a server process can hold: [CACHE] starts empty and is
    then only changed by the handler, one request after the other, in any
    world. *)
Inductive reachable : gmap string CacheEntry -> Prop :=
| reachable_empty : reachable ∅
| reachable_GET (w : World) (req : NextRequest) (CACHE : gmap string CacheEntry) :
    reachable CACHE -> reachable (run w [] (GET req CACHE)).1.2.

(** *** Specification vocabulary for the programs *)

(** [s] occurs in [n] when letter case is ignored. *)
Definition ci_substring (s n : string) : Prop :=
  exists pre post, toLowerCase n = pre +:+ toLowerCase s +:+ post.

(** How the handler ends, and the cache it leaves, as a function of the
    answer [r] that the external API gave during the run. *)
Definition outcome (req : NextRequest) (CACHE : gmap string CacheEntry)
    (r : Response) (out : Result * gmap string CacheEntry * list IOEvent)
    : Prop :=
  let k := params req in
  if ok r
  then match json r with
       | Some j =>
           let l := mapped (Params.openNow k) (Params.minPrice k)
                      (Params.maxPrice k) j in
           exists now,
             last out.2 = Some (EvNow now)
             /\ out.1.1 = Answer {| body := PlacesBody l; status := 200 |}
             /\ out.1.2 = <[cacheKey req := {| t := now; data := l |}]> CACHE
       | None => out.1.1 = Throws /\ out.1.2 = CACHE
       end
  else out.1.1 = Answer {| body := ErrorBody (text r); status := 500 |}
       /\ out.1.2 = CACHE.

End Programs.

(** ** Facts about numbers *)

Lemma js_le_spec a b : js_le a b = true <-> num_le a b.
Proof.
  unfold js_le.
  destruct a as [|[]|x], b as [|[]|y]; simpl; try (split; [discriminate|tauto]);
    try tauto.
  rewrite Qle_alt. destruct (x ?= y)%Q; split; congruence.
Qed.

Lemma js_lt_negb_le a b :
  is_NaN a = false -> is_NaN b = false -> js_lt a b = negb (js_le b a).
Proof.
  unfold js_lt, js_le.
  destruct a as [|[]|x], b as [|[]|y]; simpl; try discriminate; try reflexivity.
  intros _ _. rewrite <- (Qcompare_antisym x y).
  destruct (x ?= y)%Q; reflexivity.
Qed.

Lemma num_le_not_NaN a b : num_le a b -> is_NaN a = false /\ is_NaN b = false.
Proof. destruct a as [|[]|x], b as [|[]|y]; simpl; tauto. Qed.

Lemma num_le_refl a : is_NaN a = false -> num_le a a.
Proof. destruct a as [|[]|x]; simpl; try discriminate; auto. intros _. apply Qle_refl. Qed.

Lemma array_includes_tier x : array_includes PRICE_LEVELS x = true <-> is_tier x.
Proof.
  unfold array_includes, PRICE_LEVELS, is_tier, num. simpl.
  destruct x as [|[]|x]; simpl.
  - split; [discriminate | intros (k & _ & [])].
  - split; [discriminate | intros (k & _ & [])].
  - split; [discriminate | intros (k & _ & [])].
  - rewrite !orb_true_iff. split.
    + intros H.
      assert (Hc : forall k : Z,
                 match (inject_Z k ?= x)%Q with Eq => true | _ => false end = true ->
                 (x == inject_Z k)%Q).
      { intros k Hk. destruct (inject_Z k ?= x)%Q eqn:E; try discriminate.
        symmetry. now apply Qeq_alt. }
      destruct H as [H|[H|[H|[H|[H|H]]]]]; try discriminate;
        [exists 0|exists 1|exists 2|exists 3|exists 4]; (split; [lia | now apply Hc]).
    + intros (k & Hk & E).
      assert (Hc : match (inject_Z k ?= x)%Q with Eq => true | _ => false end = true).
      { symmetry in E. apply Qeq_alt in E. now rewrite E. }
      assert (k = 0 \/ k = 1 \/ k = 2 \/ k = 3 \/ k = 4) as [->|[->|[->|[->| ->]]]]
        by lia; tauto.
Qed.

Lemma is_tier_range x : is_tier x -> num_le (num 0) x /\ num_le x (num 4).
Proof.
  intros (k & Hk & E). destruct x as [|[]|x]; try contradiction.
  unfold num; simpl. rewrite E. rewrite <- !Zle_Qle. lia.
Qed.

(** ** The normaliser *)

Lemma normalize_app (xs ys : list Raw.t) :
  normalize {| places := Some (xs ++ ys) |}
  = normalize {| places := Some xs |} ++ normalize {| places := Some ys |}.
Proof.
  unfold normalize; simpl.
  induction xs as [|x xs IH]; simpl; [reflexivity|].
  destruct (isOperational x); simpl; now rewrite IH.
Qed.

Lemma isOperational_spec r :
  isOperational r = true <-> Raw.businessStatus r = Some "OPERATIONAL".
Proof.
  unfold isOperational. destruct (Raw.businessStatus r) as [s|].
  - rewrite String.eqb_eq. split; congruence.
  - split; discriminate.
Qed.

Lemma toPlace_price_tier r : is_tier (Place.price_level (toPlace r)).
Proof.
  cbn [toPlace Place.price_level]. destruct (Raw.priceLevel r) as [x|].
  - destruct (array_includes PRICE_LEVELS x) eqn:E.
    + now apply array_includes_tier.
    + exists 0. split; [lia | reflexivity].
  - exists 0. split; [lia | reflexivity].
Qed.

Lemma in_normalize json p :
  In p (normalize json) <->
  exists r, In r (default [] (places json)) /\ isOperational r = true /\ p = toPlace r.
Proof.
  unfold normalize. rewrite in_map_iff. split.
  - intros (r & <- & Hr). apply filter_In in Hr as [? ?]. eauto.
  - intros (r & ? & ? & ->). exists r. split; [reflexivity|]. now apply filter_In.
Qed.

Lemma in_mapped openNow lo hi json p :
  In p (mapped openNow lo hi json) <->
  In p (normalize json) /\ server_price_ok lo hi p = true
  /\ server_open_ok openNow p = true.
Proof. unfold mapped. rewrite !filter_In. tauto. Qed.

(** C2. Normalisation of the upstream records.  Wherever a record stands
    in the upstream list, it contributes nothing to the normalised list
    when its status is not "OPERATIONAL", and exactly its own image
    otherwise; in that image a missing rating or review count is 0, a
    price tier that is missing or lies outside [0,4] is 0, missing types
    are the empty list, and the open-now flag is the upstream one: absent
    stays absent, present keeps its value. *)
Theorem normalize_drops_only_non_operating :
  (forall (before after : list Raw.t) (r : Raw.t),
      normalize {| places := Some (before ++ r :: after) |}
      = normalize {| places := Some before |}
        ++ (if decide (Raw.businessStatus r = Some "OPERATIONAL")
            then [toPlace r] else [])
        ++ normalize {| places := Some after |})
  /\ normalize {| places := None |} = []
  /\ (forall r : Raw.t,
      let p := toPlace r in
      Place.rating p = default (num 0) (Raw.rating r)
      /\ Place.user_ratings_total p = default (num 0) (Raw.userRatingCount r)
      /\ (Raw.priceLevel r = None -> Place.price_level p = num 0)
      /\ (forall x, Raw.priceLevel r = Some x ->
            ~ (num_le (num 0) x /\ num_le x (num 4)) ->
            Place.price_level p = num 0)
      /\ (forall x, Raw.priceLevel r = Some x -> is_tier x ->
            Place.price_level p = x)
      /\ Place.types p = default [] (Raw.types r)
      /\ Place.open_now p
         = match Raw.currentOpeningHours r with
           | None => None
           | Some h => Raw.openNow h
           end).
Proof.
  split; [|split; [reflexivity|]].
  - intros before after r.
    rewrite normalize_app. f_equal.
    change (r :: after) with ([r] ++ after). rewrite normalize_app. f_equal.
    unfold normalize; simpl.
    destruct (decide _) as [E|E].
    + apply isOperational_spec in E. now rewrite E.
    + destruct (isOperational r) eqn:E'; [|reflexivity].
      apply isOperational_spec in E'. contradiction.
  - intros r p. subst p.
    split; [reflexivity|]. split; [reflexivity|].
    split; [|split; [|split; [|split; [reflexivity|]]]].
    + intros E. cbn [toPlace Place.price_level]. now rewrite E.
    + intros x E Hx. cbn [toPlace Place.price_level]. rewrite E.
      destruct (array_includes PRICE_LEVELS x) eqn:Hi; [|reflexivity].
      apply array_includes_tier, is_tier_range in Hi. contradiction.
    + intros x E Hx. cbn [toPlace Place.price_level]. rewrite E.
      apply array_includes_tier in Hx. now rewrite Hx.
    + simpl. now destruct (Raw.currentOpeningHours r).
Qed.

(** C4, as the code has it.  Every record the normaliser produces, hence
    every record of the list the handler caches and returns, has a price
    tier that is one of 0, 1, 2, 3, 4.  Its rating and review count are
    those of the upstream record it comes from (0 when missing): they are
    non-negative whenever the upstream ones are. *)
Theorem normalized_place_invariants (json : PlaceResponse) (p : Place.t) :
  In p (normalize json)
  \/ (exists openNow lo hi, In p (mapped openNow lo hi json)) ->
  is_tier (Place.price_level p)
  /\ num_le (num 0) (Place.price_level p)
  /\ num_le (Place.price_level p) (num 4)
  /\ exists r, In r (default [] (places json)) /\ p = toPlace r
       /\ (raw_nonneg r ->
           num_le (num 0) (Place.rating p)
           /\ num_le (num 0) (Place.user_ratings_total p)).
Proof.
  intros H.
  assert (Hn : In p (normalize json)).
  { destruct H as [H|(o & lo & hi & H)]; [exact H|]. now apply in_mapped in H. }
  apply in_normalize in Hn as (r & Hr & _ & ->).
  pose proof (toPlace_price_tier r) as Ht.
  split; [exact Ht|]. split; [now apply is_tier_range|].
  split; [now apply is_tier_range|].
  exists r. split; [exact Hr|]. split; [reflexivity|].
  intros [Hrat Hcnt]. simpl. split.
  - destruct (Raw.rating r) as [x|]; simpl; [now apply Hrat | apply Qle_refl].
  - destruct (Raw.userRatingCount r) as [x|]; simpl; [now apply Hcnt | apply Qle_refl].
Qed.

(** ** Substrings *)

Lemma prefix_spec (a s : string) :
  String.prefix a s = true <-> exists post, s = a +:+ post.
Proof.
  revert s. induction a as [|c a IH]; intros s.
  - destruct s; simpl; (split; [intros _; eexists; reflexivity | reflexivity]).
  - destruct s as [|d s]; simpl.
    + split; [discriminate | intros (post & E); discriminate E].
    + destruct (ascii_dec c d) as [->|Hne].
      * rewrite IH. split; intros (post & E); exists post.
        -- now rewrite E.
        -- injection E as E. exact E.
      * split; [discriminate|]. intros (post & E). injection E as E1 E2.
        congruence.
Qed.

Lemma string_includes_eq (s sub : string) :
  string_includes s sub
  = if String.prefix sub s then true
    else match s with
         | EmptyString => false
         | String _ s' => string_includes s' sub
         end.
Proof. destruct s; reflexivity. Qed.

Lemma string_includes_spec (s sub : string) :
  string_includes s sub = true <-> exists pre post, s = pre +:+ sub +:+ post.
Proof.
  split.
  - induction s as [|c s IH]; cbn [string_includes].
    + destruct (String.prefix sub "") eqn:E; [|discriminate].
      intros _. apply prefix_spec in E as (post & E). now exists "", post.
    + destruct (String.prefix sub (String c s)) eqn:E.
      * intros _. apply prefix_spec in E as (post & E). now exists "", post.
      * intros H. destruct (IH H) as (pre & post & ->).
        now exists (String c pre), post.
  - intros (pre & post & ->). induction pre as [|c pre IH].
    + change ("" +:+ sub +:+ post) with (sub +:+ post).
      rewrite string_includes_eq.
      assert (E : String.prefix sub (sub +:+ post) = true)
        by (apply prefix_spec; now exists post).
      now rewrite E.
    + change (String c pre +:+ sub +:+ post)
        with (String c (pre +:+ sub +:+ post)).
      rewrite string_includes_eq, IH.
      now destruct (String.prefix sub _).
Qed.

(** ** The type options *)

Lemma list_includes_spec (l : list string) (x : string) :
  list_includes l x = true <-> x ∈ l.
Proof.
  unfold list_includes. rewrite existsb_exists, list_elem_of_In. split.
  - intros (y & Hy & E). apply String.eqb_eq in E. now subst.
  - intros H. exists x. split; [exact H | apply String.eqb_refl].
Qed.

Lemma set_add_elem_of (set : list string) (t x : string) :
  x ∈ set_add set t <-> x ∈ set \/ x = t.
Proof.
  unfold set_add. destruct (list_includes set t) eqn:E.
  - apply list_includes_spec in E. split; [tauto|]. intros [H| ->]; assumption.
  - rewrite elem_of_app, list_elem_of_singleton. tauto.
Qed.

Lemma set_add_NoDup (set : list string) (t : string) :
  NoDup set -> NoDup (set_add set t).
Proof.
  intros H. unfold set_add. destruct (list_includes set t) eqn:E; [exact H|].
  apply NoDup_app. split; [exact H|]. split; [|apply NoDup_singleton].
  intros x Hx Hx'. apply list_elem_of_singleton in Hx' as ->.
  apply list_includes_spec in Hx. congruence.
Qed.

Lemma fold_set_add (ts set : list string) :
  NoDup set ->
  NoDup (fold_left set_add ts set)
  /\ forall x, x ∈ fold_left set_add ts set <-> x ∈ set \/ x ∈ ts.
Proof.
  revert set. induction ts as [|t ts IH]; intros set H; simpl.
  - split; [exact H|]. intros x. rewrite elem_of_nil. tauto.
  - destruct (IH _ (set_add_NoDup set t H)) as [Hnd Hin]. split; [exact Hnd|].
    intros x. rewrite Hin, set_add_elem_of, elem_of_cons. tauto.
Qed.

Lemma fold_types (data : list Place.t) (set : list string) :
  NoDup set ->
  let r := fold_left (fun set p => fold_left set_add (Place.types p) set) data set in
  NoDup r
  /\ forall x, x ∈ r <-> x ∈ set \/ exists p, p ∈ data /\ x ∈ Place.types p.
Proof.
  revert set. induction data as [|p data IH]; intros set H; simpl.
  - split; [exact H|]. intros x. split; [tauto|].
    intros [?|(p & Hp & _)]; [assumption|]. now apply elem_of_nil in Hp.
  - destruct (fold_set_add (Place.types p) set H) as [Hnd Hin].
    destruct (IH _ Hnd) as [Hnd' Hin']. split; [exact Hnd'|].
    intros x. rewrite Hin', Hin. split.
    + intros [[?|?]|(p' & Hp' & ?)]; [tauto| |].
      * right. exists p. rewrite elem_of_cons. tauto.
      * right. exists p'. rewrite elem_of_cons. tauto.
    + intros [?|(p' & Hp' & ?)]; [tauto|].
      apply elem_of_cons in Hp' as [->|Hp']; [tauto|]. right. eauto.
Qed.

(** C8. For every list of records, the derived list of type options is
    sorted in ascending lexicographic order, has no duplicates, and holds
    exactly the labels that occur in the types of some record. *)
Theorem availableTypes_sorted_distinct_exact (data : list Place.t) :
  StronglySorted String.le (availableTypes data)
  /\ NoDup (availableTypes data)
  /\ forall x : string,
       x ∈ availableTypes data <-> exists p, p ∈ data /\ x ∈ Place.types p.
Proof.
  unfold availableTypes, sort.
  destruct (fold_types data [] (NoDup_nil_2 (A:=string))) as [Hnd Hin].
  split; [apply StronglySorted_merge_sort; apply _|].
  split.
  - now rewrite merge_sort_Permutation.
  - intros x. rewrite merge_sort_Permutation, Hin, elem_of_nil. tauto.
Qed.

(** ** The price filter *)

Lemma price_rejects_spec lo hi p :
  is_NaN lo = false -> is_NaN hi = false -> is_NaN (Place.price_level p) = false ->
  price_rejects (lo, hi) p = false
  <-> num_le lo (Place.price_level p) /\ num_le (Place.price_level p) hi.
Proof.
  intros Hlo Hhi Hp. unfold price_rejects, js_gt; simpl.
  rewrite (js_lt_negb_le _ _ Hp Hlo), (js_lt_negb_le _ _ Hhi Hp).
  rewrite orb_false_iff, !negb_false_iff, !js_le_spec. tauto.
Qed.

Lemma server_price_ok_spec lo hi p :
  server_price_ok lo hi p = true
  <-> num_le lo (Place.price_level p) /\ num_le (Place.price_level p) hi.
Proof.
  unfold server_price_ok, js_ge. now rewrite andb_true_iff, !js_le_spec.
Qed.

Lemma filter_id {A} (f : A -> bool) (l : list A) :
  Forall (fun x => f x = true) l -> List.filter f l = l.
Proof. induction 1 as [|x l Hx _ IH]; simpl; [reflexivity|]. now rewrite Hx, IH. Qed.

(** C6. The price filter is inclusive at both bounds.  On the server a
    record passes exactly when minPrice <= tier <= maxPrice, for all
    numbers (with a NaN bound nothing passes).  On the client the same
    holds whenever the two bounds and the tier are numbers, which they are
    for bounds read from the numeric inputs.  In particular a record whose
    tier equals the lower bound, or the upper bound, of a non-empty range
    passes on both sides. *)
Theorem price_filter_inclusive (lo hi : number) (p : Place.t) :
  (server_price_ok lo hi p = true
   <-> num_le lo (Place.price_level p) /\ num_le (Place.price_level p) hi)
  /\ (is_NaN lo = false -> is_NaN hi = false ->
      is_NaN (Place.price_level p) = false ->
      (price_rejects (lo, hi) p = false
       <-> num_le lo (Place.price_level p) /\ num_le (Place.price_level p) hi))
  /\ (num_le (Place.price_level p) hi ->
      server_price_ok (Place.price_level p) hi p = true
      /\ price_rejects (Place.price_level p, hi) p = false)
  /\ (num_le lo (Place.price_level p) ->
      server_price_ok lo (Place.price_level p) p = true
      /\ price_rejects (lo, Place.price_level p) p = false).
Proof.
  split; [apply server_price_ok_spec|].
  split; [apply price_rejects_spec|].
  split; intros H; destruct (num_le_not_NaN _ _ H) as [Ha Hb].
  - pose proof (num_le_refl _ Ha) as Hrefl. split.
    + apply server_price_ok_spec. split; assumption.
    + apply price_rejects_spec; try assumption. split; assumption.
  - pose proof (num_le_refl _ Hb) as Hrefl. split.
    + apply server_price_ok_spec. split; assumption.
    + apply price_rejects_spec; try assumption. split; assumption.
Qed.

Lemma fetch_count_app (xs ys : list IOEvent) :
  fetch_count (xs ++ ys) = (fetch_count xs + fetch_count ys)%nat.
Proof. unfold fetch_count. now rewrite List.filter_app, length_app. Qed.

Section Verification.

Context {R : Runtime}.

(** ** The client filter *)

Lemma keep_spec f p :
  keep f p
  = negb (name_rejects (search f) p) && negb (open_rejects (openNowOnly f) p)
    && negb (price_rejects (priceRange f) p)
    && negb (type_rejects (selectedType f) p).
Proof.
  unfold keep.
  destruct (name_rejects _ _), (open_rejects _ _), (price_rejects _ _),
    (type_rejects _ _); reflexivity.
Qed.

(** C3. The open-now filter is tri-state and permissive toward unknown,
    in the same way on the server and on the client.  With the filter
    active, a record is rejected when its flag is explicitly false and
    passes when the flag is true or absent; with the filter inactive
    every record passes.  On the lists: switching the filter on removes
    exactly the records whose flag is explicitly false. *)
Theorem open_now_filter_tristate (p : Place.t) :
  server_open_ok true p
  = match Place.open_now p with
    | Some false => false
    | Some true => true
    | None => true
    end
  /\ open_rejects true p
     = match Place.open_now p with
       | Some false => true
       | Some true => false
       | None => false
       end
  /\ server_open_ok false p = true
  /\ open_rejects false p = false
  /\ (forall b, server_open_ok b p = negb (open_rejects b p))
  /\ (forall lo hi json,
        In p (mapped true lo hi json)
        <-> In p (mapped false lo hi json) /\ Place.open_now p <> Some false)
  /\ (forall data f,
        In p (filtered data (setOpenNowOnly true f))
        <-> In p (filtered data (setOpenNowOnly false f))
            /\ Place.open_now p <> Some false).
Proof.
  unfold server_open_ok, open_rejects.
  split; [now destruct (Place.open_now p) as [[]|]|].
  split; [now destruct (Place.open_now p) as [[]|]|].
  split; [reflexivity|]. split; [reflexivity|].
  split; [intros []; now destruct (Place.open_now p) as [[]|]|].
  split.
  - intros lo hi json. rewrite !in_mapped. unfold server_open_ok.
    destruct (Place.open_now p) as [[]|]; simpl; split; intros H;
      repeat split; try tauto; try congruence.
    destruct H as (_ & _ & H). discriminate.
  - intros data f. unfold filtered. rewrite !filter_In, !keep_spec.
    unfold open_rejects; simpl.
    destruct (name_rejects _ _), (price_rejects _ _), (type_rejects _ _),
      (Place.open_now p) as [[]|]; simpl; intuition congruence.
Qed.

(** C5. With the default filter state the client filter is the identity
    on every list of records that satisfy the invariants of the data
    model. *)
Theorem filter_default_identity (data : list Place.t) :
  Forall place_inv data -> filtered data defaultFilters = data.
Proof.
  intros H. apply filter_id. eapply Forall_impl; [exact H|].
  intros p (H0 & H4 & _). rewrite keep_spec; simpl.
  destruct (num_le_not_NaN _ _ H0) as [_ Hp].
  assert (E : price_rejects (num 0, num 4) p = false)
    by (apply price_rejects_spec; auto).
  unfold name_rejects, open_rejects, type_rejects; simpl. now rewrite E.
Qed.

(** C7. The name filter is a case-insensitive substring match: a record
    passes exactly when the lower-cased search string occurs in its
    lower-cased display name, and the empty search string lets every
    record pass.  In the whole filter the search string contributes this
    test and nothing else.  The only fact used about [toLowerCase] is
    that it maps the empty string to itself. *)
Theorem name_filter_case_insensitive (s : string) (p : Place.t) :
  toLowerCase "" = "" ->
  (name_rejects s p = false <-> ci_substring s (Place.name p))
  /\ name_rejects "" p = false
  /\ (forall f, keep (setSearch s f) p = true
                <-> ci_substring s (Place.name p)
                    /\ keep (setSearch "" f) p = true).
Proof.
  intros Hempty.
  assert (Hname : name_rejects s p = false <-> ci_substring s (Place.name p)).
  { unfold name_rejects, ci_substring. destruct s as [|c s]; simpl.
    - split; [intros _|reflexivity]. rewrite Hempty.
      exists "", (toLowerCase (Place.name p)). reflexivity.
    - rewrite negb_false_iff. apply string_includes_spec. }
  split; [exact Hname|]. split; [reflexivity|].
  intros f. rewrite !keep_spec; simpl. rewrite <- Hname.
  change (name_rejects "" p) with false.
  destruct (name_rejects s p); simpl.
  - split; [discriminate | intros [H _]; discriminate H].
  - split; [intros H; split; [reflexivity | exact H] | intros [_ H]; exact H].
Qed.

(** ** Runs of the handler *)

(** What a run of [refresh] does, from any history. *)
Lemma run_refresh (w : World) (hist : list IOEvent) (req : NextRequest)
    (CACHE : gmap string CacheEntry) :
  let k := params req in
  run w hist (refresh req CACHE)
  = match upstream w hist (requestBody k) with
    | None => ((Throws, CACHE), hist ++ [EvFetchRejected (requestBody k)])
    | Some res =>
        let hist1 := hist ++ [EvFetch (requestBody k) res] in
        if ok res
        then match json res with
             | Some j =>
                 let l := mapped (Params.openNow k) (Params.minPrice k)
                            (Params.maxPrice k) j in
                 ((Answer {| body := PlacesBody l; status := 200 |},
                   <[cacheKey req := {| t := clock w hist1; data := l |}]> CACHE),
                  hist1 ++ [EvNow (clock w hist1)])
             | None => ((Throws, CACHE), hist1)
             end
        else ((Answer {| body := ErrorBody (text res); status := 500 |}, CACHE),
              hist1 ++ [EvLog "Error calling Places API" (text res)])
    end.
Proof.
  unfold refresh; simpl.
  destruct (upstream w hist _) as [res|]; simpl; [|reflexivity].
  destruct (ok res); simpl; [|reflexivity]. now destruct (json res).
Qed.

(** The outcome of a request: a fresh entry is served from the cache,
    anything else goes through [refresh], after the clock was read when an
    entry exists. *)
Lemma run_GET (w : World) (req : NextRequest) (CACHE : gmap string CacheEntry) :
  run w [] (GET req CACHE)
  = match CACHE !! cacheKey req with
    | Some cached =>
        if clock w [] - t cached <? TTL
        then ((Answer {| body := PlacesBody (data cached); status := 200 |},
               CACHE),
              [EvNow (clock w [])])
        else run w [EvNow (clock w [])] (refresh req CACHE)
    | None => run w [] (refresh req CACHE)
    end.
Proof.
  unfold GET. destruct (CACHE !! cacheKey req) as [cached|]; [|reflexivity].
  simpl. now destruct (_ <? _).
Qed.

(** A run that starts without a call makes exactly one, answered or
    rejected; an answered call is the one of [run_refresh]. *)
Lemma run_refresh_trace (w : World) (hist : list IOEvent) (req : NextRequest)
    (CACHE : gmap string CacheEntry) :
  fetch_count hist = 0%nat ->
  let out := run w hist (refresh req CACHE) in
  fetch_count out.2 = 1%nat
  /\ (forall b r, In (EvFetch b r) out.2 ->
                  b = requestBody (params req)
                  /\ upstream w hist (requestBody (params req)) = Some r).
Proof.
  intros H0 out. subst out. rewrite run_refresh.
  assert (Hh : forall b r, ~ In (EvFetch b r) hist).
  { intros b r Hin. unfold fetch_count in H0.
    assert (Hf : In (EvFetch b r) (List.filter is_fetch hist))
      by (apply filter_In; split; [exact Hin | reflexivity]).
    destruct (List.filter is_fetch hist); [contradiction | discriminate]. }
  destruct (upstream w hist _) as [res|]; simpl.
  - destruct (ok res); [destruct (json res)|]; simpl;
      rewrite !fetch_count_app, H0; simpl.
    all: split; [reflexivity|]; intros b r Hin;
      rewrite !in_app_iff in Hin; simpl in Hin.
    + destruct Hin as [[Hin|[Hin|[]]]|[Hin|[]]];
        [ now apply Hh in Hin | injection Hin as <- <-; tauto | discriminate Hin ].
    + destruct Hin as [Hin|[Hin|[]]];
        [ now apply Hh in Hin | injection Hin as <- <-; tauto ].
    + destruct Hin as [[Hin|[Hin|[]]]|[Hin|[]]];
        [ now apply Hh in Hin | injection Hin as <- <-; tauto | discriminate Hin ].
  - rewrite fetch_count_app, H0. split; [reflexivity|].
    intros b r Hin. apply in_app_iff in Hin as [Hin|[Hin|[]]];
      [ now apply Hh in Hin | discriminate Hin ].
Qed.

Lemma run_refresh_outcome (w : World) (hist : list IOEvent) (req : NextRequest)
    (CACHE : gmap string CacheEntry) (b : Body) (r : Response) :
  fetch_count hist = 0%nat ->
  In (EvFetch b r) (run w hist (refresh req CACHE)).2 ->
  outcome req CACHE r (run w hist (refresh req CACHE)).
Proof.
  intros H0 Hin.
  destruct (run_refresh_trace w hist req CACHE H0) as (_ & Huniq).
  destruct (Huniq b r Hin) as [-> Hr].
  unfold outcome. rewrite run_refresh, Hr.
  destruct (ok r); simpl; [destruct (json r); simpl|].
  - eexists. split; [apply last_snoc|]. split; reflexivity.
  - split; reflexivity.
  - split; reflexivity.
Qed.

Lemma run_GET_outcome (w : World) (req : NextRequest)
    (CACHE : gmap string CacheEntry) (b : Body) (r : Response) :
  In (EvFetch b r) (run w [] (GET req CACHE)).2 ->
  fetch_count (run w [] (GET req CACHE)).2 = 1%nat
  /\ outcome req CACHE r (run w [] (GET req CACHE)).
Proof.
  rewrite run_GET.
  destruct (CACHE !! cacheKey req) as [cached|].
  - destruct (clock w [] - t cached <? TTL).
    + simpl. intros [H|[]]. discriminate H.
    + intros H. split; [now apply run_refresh_trace|].
      now apply (run_refresh_outcome _ _ _ _ b).
  - intros H. split; [now apply run_refresh_trace|].
    now apply (run_refresh_outcome _ _ _ _ b).
Qed.

(** C1, as the code has it.  A request whose key has an entry younger
    than the TTL is answered with the stored list, without any call to the
    external API and without touching the cache.  A request whose key has
    no entry, or an entry whose age has reached the TTL, makes exactly one
    call; when that call is answered with a success response whose body
    parses, the entry of the key is overwritten with the new list and the
    time read after the call, and the new list is returned.  When the
    success response has a body that does not parse, the handler throws
    and the cache is left as it was. *)
Theorem cache_hit_and_refresh (w : World) (req : NextRequest)
    (CACHE : gmap string CacheEntry) :
  let out := run w [] (GET req CACHE) in
  (forall cached,
      CACHE !! cacheKey req = Some cached ->
      clock w [] - t cached < TTL ->
      out.1.1 = Answer {| body := PlacesBody (data cached); status := 200 |}
      /\ fetch_count out.2 = 0%nat
      /\ out.1.2 = CACHE)
  /\ (CACHE !! cacheKey req = None
      \/ (exists cached, CACHE !! cacheKey req = Some cached
                         /\ TTL <= clock w [] - t cached) ->
      fetch_count out.2 = 1%nat
      /\ forall b r,
           In (EvFetch b r) out.2 -> ok r = true ->
           (forall j,
               json r = Some j ->
               let k := params req in
               let l := mapped (Params.openNow k) (Params.minPrice k)
                          (Params.maxPrice k) j in
               exists now,
                 last out.2 = Some (EvNow now)
                 /\ out.1.1 = Answer {| body := PlacesBody l; status := 200 |}
                 /\ out.1.2
                    = <[cacheKey req := {| t := now; data := l |}]> CACHE)
           /\ (json r = None -> out.1.1 = Throws /\ out.1.2 = CACHE)).
Proof.
  intros out. split.
  - intros cached Hc Hage. subst out. rewrite run_GET, Hc.
    apply Z.ltb_lt in Hage. rewrite Hage. simpl. split; [reflexivity|].
    split; reflexivity.
  - intros Hmiss.
    assert (Hone : fetch_count out.2 = 1%nat).
    { subst out. rewrite run_GET.
      destruct Hmiss as [Hc|(cached & Hc & Hage)]; rewrite Hc.
      - now apply run_refresh_trace.
      - apply Z.ltb_ge in Hage. rewrite Hage. now apply run_refresh_trace. }
    split; [exact Hone|].
    intros b r Hin Hok.
    destruct (run_GET_outcome w req CACHE b r Hin) as [_ Ho].
    unfold outcome in Ho. rewrite Hok in Ho. fold out in Ho. split.
    + intros j Hj k l. rewrite Hj in Ho. exact Ho.
    + intros Hj. rewrite Hj in Ho. exact Ho.
Qed.

(** C9. Whenever the external API answers a call with a non-success
    response, that call is the only one of the run (no retry), and the
    handler returns status 500, which is not a 2xx status, with a body
    that is the object holding the raw upstream body in its [error] field
    and that has no [places]. *)
Theorem upstream_failure_response (w : World) (req : NextRequest)
    (CACHE : gmap string CacheEntry) (b : Body) (r : Response) :
  let out := run w [] (GET req CACHE) in
  In (EvFetch b r) out.2 ->
  ok r = false ->
  fetch_count out.2 = 1%nat
  /\ exists resp,
       out.1.1 = Answer resp
       /\ resp = {| body := ErrorBody (text r); status := 500 |}
       /\ ~ (200 <= status resp < 300)
       /\ forall l, body resp <> PlacesBody l.
Proof.
  intros out Hin Hok.
  destruct (run_GET_outcome w req CACHE b r Hin) as [Hone Ho].
  unfold outcome in Ho. rewrite Hok in Ho. destruct Ho as [Hresp _].
  fold out in Hone, Hresp.
  split; [exact Hone|]. eexists. split; [exact Hresp|].
  split; [reflexivity|]. simpl. split; [lia | discriminate].
Qed.

(** C10. When the call to the external API fails, the cache after the
    request is the cache before it; in particular the entry of the
    request's own key, expired or not, is still the one that was there. *)
Theorem upstream_failure_keeps_cache (w : World) (req : NextRequest)
    (CACHE : gmap string CacheEntry) (b : Body) (r : Response) :
  let out := run w [] (GET req CACHE) in
  In (EvFetch b r) out.2 ->
  ok r = false ->
  out.1.2 = CACHE
  /\ out.1.2 !! cacheKey req = CACHE !! cacheKey req.
Proof.
  intros out Hin Hok.
  destruct (run_GET_outcome w req CACHE b r Hin) as [_ Ho].
  unfold outcome in Ho. rewrite Hok in Ho. destruct Ho as [_ Hc].
  fold out in Hc. now rewrite Hc.
Qed.

End Verification.

(** ** The scenarios of the specification, evaluated *)

(** The request [q=sushi, openNow=true, minPrice=1, maxPrice=3,
    type=restaurant] against the mock upstream returns exactly the
    operating records with tier in [1,3] whose flag is not false. *)
Example end_to_end_scenario :
  (run Example.world_up []
     (GET (R := Example.runtime) Example.req_sushi ∅)).1.1
  = Answer {| body := PlacesBody [Example.place_a]; status := 200 |}.
Proof. vm_compute. reflexivity. Qed.

(** Missing rating, missing review count and price tier 7. *)
Example normalization_defaults :
  toPlace Example.raw_b
  = Place.mk "b" "pb" "Unknown" (num 0) (num 0) (num 0) [] None.
Proof. reflexivity. Qed.

(** The same query twice within the TTL calls the API once; a third time
    after the TTL has elapsed calls it again. *)
Example same_query_twice_then_expired :
  let handle := GET (R := Example.runtime) Example.req_sushi in
  let first := run Example.world_up [] (handle ∅) in
  let second := run Example.world_up [] (handle first.1.2) in
  let later : World :=
    {| clock := fun _ => 200000000; upstream := upstream Example.world_up |} in
  let third := run later [] (handle second.1.2) in
  fetch_count first.2 = 1%nat /\ fetch_count second.2 = 0%nat
  /\ fetch_count third.2 = 1%nat.
Proof. vm_compute. repeat split. Qed.

(** ** Instances *)

Lemma cache_hit_and_refresh_witness :
  let key := cacheKey (R := Example.runtime) Example.req_sushi in
  let handle := GET (R := Example.runtime) Example.req_sushi in
  let hit := run Example.world_up [] (handle {[ key := Example.entry ]}) in
  let miss := run Example.world_up [] (handle ∅) in
  let garbled := run Example.world_garbled [] (handle ∅) in
  (hit.1.1 = Answer {| body := PlacesBody (data Example.entry); status := 200 |}
   /\ fetch_count hit.2 = 0%nat
   /\ hit.1.2 = {[ key := Example.entry ]})
  /\ (fetch_count miss.2 = 1%nat
      /\ exists now,
           last miss.2 = Some (EvNow now)
           /\ miss.1.1
              = Answer {| body := PlacesBody [Example.place_a]; status := 200 |}
           /\ miss.1.2
              = <[ key := {| t := now; data := [Example.place_a] |} ]> ∅)
  /\ (garbled.1.1 = Throws /\ garbled.1.2 = ∅).
Proof.
  intros key handle hit miss garbled.
  pose proof (cache_hit_and_refresh (R := Example.runtime)
                Example.world_up Example.req_sushi) as T.
  split; [|split].
  - apply (proj1 (T {[ key := Example.entry ]}) Example.entry).
    + apply lookup_singleton_eq.
    + reflexivity.
  - destruct (proj2 (T ∅)) as [Hone Hnew].
    + left. apply lookup_empty.
    + split; [exact Hone|].
      apply (proj1 (Hnew (requestBody (params (R := Example.runtime)
                                         Example.req_sushi))
                      Example.response_up (or_introl eq_refl) eq_refl)
               Example.json_up).
      reflexivity.
  - destruct (proj2 (cache_hit_and_refresh (R := Example.runtime)
                       Example.world_garbled Example.req_sushi ∅))
      as [_ Hnew].
    + left. apply lookup_empty.
    + apply (proj2 (Hnew (requestBody (params (R := Example.runtime)
                                         Example.req_sushi))
                      Example.response_garbled (or_introl eq_refl) eq_refl)).
      reflexivity.
Defined.

Lemma refresh_failure_writes_no_entry :
  let key := cacheKey (R := Example.runtime) Example.req_sushi in
  let out :=
    run Example.world_down []
      (GET (R := Example.runtime) Example.req_sushi ∅) in
  (∅ : gmap string CacheEntry) !! key = None
  /\ fetch_count out.2 = 1%nat
  /\ out.1.2 !! key = None.
Proof. split; [reflexivity | split; reflexivity]. Qed.

Lemma normalize_drops_only_non_operating_witness :
  normalize {| places := Some Example.raws |}
  = [toPlace Example.raw_a; toPlace Example.raw_b; toPlace Example.raw_c]
  /\ Place.price_level (toPlace Example.raw_b) = num 0
  /\ Place.price_level (toPlace Example.raw_a) = num 2.
Proof.
  destruct normalize_drops_only_non_operating as (Hctx & _ & Hrec).
  split.
  - exact (Hctx [Example.raw_a; Example.raw_b; Example.raw_c] [] Example.raw_d).
  - split.
    + destruct (Hrec Example.raw_b) as (_ & _ & _ & Hout & _).
      apply (Hout (num 7)); [reflexivity|].
      intros [_ H]. revert H. solve_num_le.
    + destruct (Hrec Example.raw_a) as (_ & _ & _ & _ & Htier & _).
      apply (Htier (num 2)); [reflexivity|].
      exists 2. split; [lia | reflexivity].
Defined.

Lemma normalized_place_invariants_witness :
  In Example.place_a (normalize Example.json_up)
  /\ is_tier (Place.price_level Example.place_a)
  /\ num_le (num 0) (Place.price_level Example.place_a)
  /\ num_le (Place.price_level Example.place_a) (num 4).
Proof.
  assert (H : In Example.place_a (normalize Example.json_up))
    by (left; reflexivity).
  split; [exact H|].
  destruct (normalized_place_invariants Example.json_up
              Example.place_a (or_introl H)) as (Ht & H0 & H4 & _).
  split; [exact Ht|]. split; [exact H0 | exact H4].
Defined.

Lemma negative_rating_passes_through :
  In (toPlace Example.raw_negative)
     (normalize {| places := Some [Example.raw_negative] |})
  /\ ~ num_le (num 0) (Place.rating (toPlace Example.raw_negative))
  /\ ~ num_le (num 0) (Place.user_ratings_total (toPlace Example.raw_negative)).
Proof.
  split; [left; reflexivity|]. split; solve_num_le.
Qed.

Lemma filter_default_identity_witness :
  Forall place_inv [Example.place_a; Example.place_c]
  /\ filtered (R := Example.runtime) [Example.place_a; Example.place_c] defaultFilters
     = [Example.place_a; Example.place_c].
Proof.
  assert (H : Forall place_inv [Example.place_a; Example.place_c]).
  { repeat constructor; solve_num_le. }
  split; [exact H|]. exact (filter_default_identity (R := Example.runtime) _ H).
Defined.

Lemma price_filter_inclusive_witness :
  (is_NaN (num 1) = false /\ is_NaN (num 3) = false
   /\ is_NaN (Place.price_level Example.place_a) = false
   /\ price_rejects (num 1, num 3) Example.place_a = false)
  /\ (num_le (Place.price_level Example.place_c) (num 3)
      /\ server_price_ok (num 3) (num 3) Example.place_c = true
      /\ price_rejects (num 3, num 3) Example.place_c = false)
  /\ (num_le (num 2) (Place.price_level Example.place_a)
      /\ server_price_ok (num 2) (num 2) Example.place_a = true
      /\ price_rejects (num 2, num 2) Example.place_a = false).
Proof.
  split; [|split].
  - split; [reflexivity|]. split; [reflexivity|]. split; [reflexivity|].
    destruct (price_filter_inclusive (num 1) (num 3) Example.place_a)
      as (_ & Hclient & _).
    apply (Hclient eq_refl eq_refl eq_refl). split; solve_num_le.
  - assert (H : num_le (Place.price_level Example.place_c) (num 3))
      by solve_num_le.
    split; [exact H|].
    destruct (price_filter_inclusive (num 0) (num 3) Example.place_c)
      as (_ & _ & Hlo & _).
    exact (Hlo H).
  - assert (H : num_le (num 2) (Place.price_level Example.place_a))
      by solve_num_le.
    split; [exact H|].
    destruct (price_filter_inclusive (num 2) (num 0) Example.place_a)
      as (_ & _ & _ & Hhi).
    exact (Hhi H).
Defined.

Lemma name_filter_case_insensitive_witness :
  toLowerCase (Runtime := Example.runtime) "" = ""
  /\ name_rejects (R := Example.runtime) "SUSHI" Example.place_a = false.
Proof.
  split; [reflexivity|].
  apply (proj1 (name_filter_case_insensitive (R := Example.runtime) "SUSHI"
                  Example.place_a eq_refl)).
  exists "", " bar". reflexivity.
Defined.

Lemma upstream_failure_response_witness :
  let out :=
    run Example.world_down []
      (GET (R := Example.runtime) Example.req_sushi ∅) in
  ok Example.response_down = false
  /\ fetch_count out.2 = 1%nat
  /\ out.1.1 = Answer {| body := ErrorBody "quota exceeded"; status := 500 |}.
Proof.
  intros out. split; [reflexivity|].
  destruct (upstream_failure_response (R := Example.runtime)
              Example.world_down Example.req_sushi ∅
              (requestBody (params (R := Example.runtime) Example.req_sushi))
              Example.response_down) as (Hone & resp & Hresp & -> & _).
  - left. reflexivity.
  - reflexivity.
  - split; [exact Hone | exact Hresp].
Defined.

Lemma upstream_failure_keeps_cache_witness :
  let key := cacheKey (R := Example.runtime) Example.req_sushi in
  let out :=
    run Example.world_down []
      (GET (R := Example.runtime) Example.req_sushi
         {[ key := Example.stale_entry ]}) in
  ok Example.response_down = false
  /\ out.1.2 = {[ key := Example.stale_entry ]}
  /\ out.1.2 !! key = Some Example.stale_entry.
Proof.
  intros key out. split; [reflexivity|].
  destruct (upstream_failure_keeps_cache (R := Example.runtime)
              Example.world_down Example.req_sushi
              {[ key := Example.stale_entry ]}
              (requestBody (params (R := Example.runtime) Example.req_sushi))
              Example.response_down) as (Hc & Hk).
  - right. left. reflexivity.
  - reflexivity.
  - split; [exact Hc|]. fold out key in Hk. rewrite Hk.
    apply lookup_singleton_eq.
Defined.

(** * Further properties of the programs *)

(** ** The server pipeline as a whole *)

Lemma num_le_trans a b c : num_le a b -> num_le b c -> num_le a c.
Proof.
  destruct a as [|[]|x], b as [|[]|y], c as [|[]|z]; simpl; try tauto.
  apply Qle_trans.
Qed.

Lemma filter_nil {A} (f : A -> bool) (l : list A) :
  (forall x, In x l -> f x = false) -> List.filter f l = [].
Proof.
  induction l as [|x l IH]; intros H; simpl; [reflexivity|].
  rewrite (H x (or_introl eq_refl)). apply IH. intros y Hy. apply H. now right.
Qed.

Lemma filter_sublist_mono {A} (f g : A -> bool) (l k : list A) :
  (forall x, f x = true -> g x = true) ->
  sublist l k -> sublist (List.filter f l) (List.filter g k).
Proof.
  intros Hfg. induction 1 as [|x l k _ IH|x l k _ IH]; simpl.
  - constructor.
  - destruct (f x) eqn:E.
    + rewrite (Hfg x E). now constructor.
    + destruct (g x); [now constructor | exact IH].
  - destruct (g x); [now constructor | exact IH].
Qed.

Lemma filter_sublist {A} (f : A -> bool) (l : list A) :
  sublist (List.filter f l) l.
Proof.
  induction l as [|x l IH]; simpl; [constructor|].
  destruct (f x); now constructor.
Qed.

Lemma map_sublist {A B} (f : A -> B) (l k : list A) :
  sublist l k -> sublist (List.map f l) (List.map f k).
Proof. induction 1; simpl; now constructor. Qed.

Lemma normalize_tiers json : tiers_ok (normalize json).
Proof.
  apply List.Forall_forall. intros p Hp.
  apply in_normalize in Hp as (r & _ & _ & ->). apply toPlace_price_tier.
Qed.

Lemma mapped_tiers openNow lo hi json : tiers_ok (mapped openNow lo hi json).
Proof.
  apply List.Forall_forall. intros p Hp. apply in_mapped in Hp as [Hp _].
  revert p Hp. apply List.Forall_forall. apply normalize_tiers.
Qed.

(** X1. The list the handler computes holds exactly the images of the
    upstream records with status "OPERATIONAL" whose normalised tier lies
    in [minPrice, maxPrice] and, when open-now was requested, whose flag is
    not explicitly false. *)
Theorem mapped_exactly (openNow : bool) (lo hi : number) (json : PlaceResponse)
    (p : Place.t) :
  In p (mapped openNow lo hi json)
  <-> exists r : Raw.t,
        In r (default [] (places json))
        /\ Raw.businessStatus r = Some "OPERATIONAL"
        /\ p = toPlace r
        /\ num_le lo (Place.price_level p) /\ num_le (Place.price_level p) hi
        /\ (openNow = true -> Place.open_now p <> Some false).
Proof.
  rewrite in_mapped, in_normalize, server_price_ok_spec. unfold server_open_ok.
  split.
  - intros ((r & Hr & Hop & ->) & Hprice & Hopen).
    exists r. apply isOperational_spec in Hop.
    repeat (split; [tauto|]). intros ->.
    destruct (Place.open_now (toPlace r)) as [[]|]; [discriminate| |discriminate].
    discriminate Hopen.
  - intros (r & Hr & Hop & -> & Hlo & Hhi & Hopen).
    apply isOperational_spec in Hop. split; [eauto|]. split; [tauto|].
    destruct openNow; [|reflexivity].
    destruct (Place.open_now (toPlace r)) as [[]|]; try reflexivity.
    now destruct (Hopen eq_refl).
Qed.

(** X2. The handler neither reorders, duplicates nor invents records: the
    list it computes is a subsequence of the images of the upstream
    records, in upstream order, so it is never longer than the upstream
    list. *)
Theorem mapped_is_subsequence (openNow : bool) (lo hi : number)
    (json : PlaceResponse) :
  sublist (mapped openNow lo hi json)
          (List.map toPlace (default [] (places json)))
  /\ (length (mapped openNow lo hi json)
      <= length (default [] (places json)))%nat.
Proof.
  assert (H : sublist (mapped openNow lo hi json)
                (List.map toPlace (default [] (places json)))).
  { unfold mapped, normalize.
    etrans; [apply filter_sublist|]. etrans; [apply filter_sublist|].
    apply map_sublist, filter_sublist. }
  split; [exact H|].
  apply sublist_length in H. now rewrite length_map in H.
Qed.

(** X3. Loosening a request only adds records: with a wider price range,
    and with open-now dropped or kept, the result of the tighter request
    is a subsequence of the result of the looser one. *)
Theorem mapped_monotone (openNow openNow' : bool) (lo hi lo' hi' : number)
    (json : PlaceResponse) :
  num_le lo' lo -> num_le hi hi' -> (openNow' = true -> openNow = true) ->
  sublist (mapped openNow lo hi json) (mapped openNow' lo' hi' json).
Proof.
  intros Hlo Hhi Ho. unfold mapped.
  apply filter_sublist_mono.
  - intros p. unfold server_open_ok.
    destruct openNow', openNow; try tauto. intros _.
    now specialize (Ho eq_refl).
  - apply filter_sublist_mono; [|reflexivity].
    intros p. rewrite !server_price_ok_spec. intros [H1 H2].
    split; eauto using num_le_trans.
Qed.

(** X4. Degenerate ranges select nothing: when a bound is NaN (a
    [minPrice] or [maxPrice] parameter that is not a number), or when the
    upper bound is below the lower one, the computed list is empty
    whatever the upstream returned. *)
Theorem mapped_degenerate_range (openNow : bool) (lo hi : number)
    (json : PlaceResponse) :
  is_NaN lo = true \/ is_NaN hi = true \/ js_lt hi lo = true ->
  mapped openNow lo hi json = [].
Proof.
  intros H. unfold mapped.
  rewrite (filter_nil (server_price_ok lo hi)); [reflexivity|].
  intros p _. destruct (server_price_ok lo hi p) eqn:E; [|reflexivity].
  apply server_price_ok_spec in E as [H1 H2].
  pose proof (num_le_trans _ _ _ H1 H2) as H3.
  destruct (num_le_not_NaN _ _ H3) as [Ha Hb].
  destruct H as [H|[H|H]]; [congruence|congruence|].
  rewrite (js_lt_negb_le _ _ Hb Ha) in H.
  apply js_le_spec in H3. rewrite H3 in H. discriminate H.
Qed.

Lemma price_filter_full_range (lo hi : number) (json : PlaceResponse) :
  num_le lo (num 0) -> num_le (num 4) hi ->
  List.filter (server_price_ok lo hi) (normalize json) = normalize json.
Proof.
  intros Hlo Hhi. apply filter_id. apply List.Forall_forall. intros p Hp.
  apply server_price_ok_spec.
  pose proof (normalize_tiers json) as Ht.
  unfold tiers_ok in Ht. rewrite List.Forall_forall in Ht.
  destruct (is_tier_range _ (Ht p Hp)). split; eauto using num_le_trans.
Qed.

(** X5. A range that covers [0,4], without the open-now filter, filters
    nothing: the computed list is the whole normalised list. *)
Theorem mapped_full_range (lo hi : number) (json : PlaceResponse) :
  num_le lo (num 0) -> num_le (num 4) hi ->
  mapped false lo hi json = normalize json.
Proof.
  intros Hlo Hhi. unfold mapped.
  rewrite (price_filter_full_range lo hi json Hlo Hhi).
  apply filter_id, List.Forall_forall. reflexivity.
Qed.

(** ** The handler and its cache *)

(** The five ways a request ends, with the whole trace: served from the
    cache; refreshed; thrown on a success answer whose body does not
    parse; failed; thrown on a rejected call.  [hist] is what happened
    before the call: nothing when the key had no entry, one reading of the
    clock when its entry had expired. *)
Lemma run_GET_cases {R : Runtime} (w : World) (req : NextRequest)
    (CACHE : gmap string CacheEntry) :
  let key := cacheKey req in
  let k := params req in
  let out := run w [] (GET req CACHE) in
  (exists cached,
      CACHE !! key = Some cached /\ clock w [] - t cached < TTL
      /\ out = ((Answer {| body := PlacesBody (data cached); status := 200 |},
                 CACHE),
                [EvNow (clock w [])]))
  \/ (exists hist,
        (hist = [] /\ CACHE !! key = None
         \/ exists cached, hist = [EvNow (clock w [])]
                           /\ CACHE !! key = Some cached
                           /\ TTL <= clock w [] - t cached)
        /\ ((exists r j now,
               ok r = true /\ json r = Some j
               /\ let l := mapped (Params.openNow k) (Params.minPrice k)
                             (Params.maxPrice k) j in
                  out = ((Answer {| body := PlacesBody l; status := 200 |},
                          <[key := {| t := now; data := l |}]> CACHE),
                         hist ++ [EvFetch (requestBody k) r; EvNow now]))
            \/ (exists r,
                  ok r = true /\ json r = None
                  /\ out = ((Throws, CACHE), hist ++ [EvFetch (requestBody k) r]))
            \/ (exists r,
                  ok r = false
                  /\ out = ((Answer {| body := ErrorBody (text r);
                                       status := 500 |}, CACHE),
                            hist ++ [EvFetch (requestBody k) r;
                                     EvLog "Error calling Places API" (text r)]))
            \/ out = ((Throws, CACHE),
                      hist ++ [EvFetchRejected (requestBody k)]))).
Proof.
  intros key k out. subst out. rewrite run_GET. fold key.
  assert (Hrefresh : forall hist,
    (exists r j now,
        ok r = true /\ json r = Some j
        /\ let l := mapped (Params.openNow k) (Params.minPrice k)
                      (Params.maxPrice k) j in
           run w hist (refresh req CACHE)
           = ((Answer {| body := PlacesBody l; status := 200 |},
               <[key := {| t := now; data := l |}]> CACHE),
              hist ++ [EvFetch (requestBody k) r; EvNow now]))
    \/ (exists r,
          ok r = true /\ json r = None
          /\ run w hist (refresh req CACHE)
             = ((Throws, CACHE), hist ++ [EvFetch (requestBody k) r]))
    \/ (exists r,
          ok r = false
          /\ run w hist (refresh req CACHE)
             = ((Answer {| body := ErrorBody (text r); status := 500 |}, CACHE),
                hist ++ [EvFetch (requestBody k) r;
                         EvLog "Error calling Places API" (text r)]))
    \/ run w hist (refresh req CACHE)
       = ((Throws, CACHE), hist ++ [EvFetchRejected (requestBody k)])).
  { intros hist. rewrite run_refresh. fold k.
    destruct (upstream w hist (requestBody k)) as [r|]; [|auto].
    destruct (ok r) eqn:Hok; [destruct (json r) as [j|] eqn:Hj|]; simpl.
    - left. exists r, j. eexists. rewrite <- app_assoc. auto.
    - right; left. exists r. auto.
    - right; right; left. exists r. rewrite <- app_assoc. auto. }
  destruct (CACHE !! key) as [cached|] eqn:Hc.
  - destruct (clock w [] - t cached <? TTL) eqn:Hage.
    + left. exists cached. apply Z.ltb_lt in Hage. auto.
    + right. apply Z.ltb_ge in Hage. eexists.
      split; [right; exists cached; auto|]. apply Hrefresh.
  - right. eexists. split; [left; auto|]. apply Hrefresh.
Qed.

(** Destructs the outcome of a run into its five cases. *)
Ltac run_cases w req CACHE :=
  let cached := fresh "cached" in
  let hist := fresh "hist" in
  let r := fresh "r" in
  let j := fresh "j" in
  let Hhist := fresh "Hhist" in
  let Hok := fresh "Hok" in
  let Hj := fresh "Hj" in
  let now := fresh "now" in
  let Hrun := fresh "Hrun" in
  let Hc := fresh "Hc" in
  let Hage := fresh "Hage" in
  destruct (run_GET_cases w req CACHE)
    as [(cached & Hc & Hage & Hrun)
       |(hist & Hhist & [(r & j & now & Hok & Hj & Hrun)
                        |[(r & Hok & Hj & Hrun)
                         |[(r & Hok & Hrun)|Hrun]]])];
  rewrite Hrun; simpl.

Lemma hist_shape (w : World) (key : string) (CACHE : gmap string CacheEntry)
    (hist : list IOEvent) :
  (hist = [] /\ CACHE !! key = None
   \/ exists cached, hist = [EvNow (clock w [])]
                     /\ CACHE !! key = Some cached
                     /\ TTL <= clock w [] - t cached) ->
  hist = [] \/ hist = [EvNow (clock w [])].
Proof. intros [[-> _]|(c & -> & _)]; auto. Qed.

(** Decides which event of a short, explicit trace a membership refers
    to. *)
Ltac pick_event H :=
  simpl in H;
  repeat (destruct H as [H|H]; try discriminate H); try contradiction.

Section Handler.

Context {R : Runtime}.

(** X6. A request writes at most the entry of its own key and removes
    nothing: every other key has the entry it had, and every key that
    had an entry still has one. *)
Theorem handler_touches_only_its_key (w : World) (req : NextRequest)
    (CACHE : gmap string CacheEntry) :
  let out := run w [] (GET req CACHE) in
  (forall k, k <> cacheKey req -> out.1.2 !! k = CACHE !! k)
  /\ (forall k, is_Some (CACHE !! k) -> is_Some (out.1.2 !! k)).
Proof.
  run_cases w req CACHE; try (split; auto; fail).
  split.
  - intros k Hk. now rewrite lookup_insert_ne.
  - intros k Hk. destruct (decide (cacheKey req = k)) as [<-|Hne].
    + rewrite lookup_insert_eq. eauto.
    + now rewrite lookup_insert_ne.
Qed.

(** X7. A success response and the cache agree: whenever the handler
    answers 200, the entry of the request's key in the cache it leaves
    holds exactly the list it returned. *)
Theorem success_response_is_cached (w : World) (req : NextRequest)
    (CACHE : gmap string CacheEntry) (resp : NextResponse) :
  let out := run w [] (GET req CACHE) in
  out.1.1 = Answer resp ->
  status resp = 200 ->
  exists e, out.1.2 !! cacheKey req = Some e
            /\ body resp = PlacesBody (data e).
Proof.
  run_cases w req CACHE; intros Hr Hs; try discriminate Hr;
    injection Hr as <-.
  - eauto.
  - eexists. rewrite lookup_insert_eq. split; reflexivity.
  - discriminate Hs.
Qed.

(** X8. Store, then hit.  After a request whose call to the API
    succeeded, any request with the same key whose clock reads less than
    the TTL after the stored timestamp is answered with the same response,
    without a call, and leaves the cache as it is. *)
Theorem store_then_hit (w1 w2 : World) (req req2 : NextRequest)
    (CACHE : gmap string CacheEntry) (b : Body) (r : Response) (now : Z) :
  let out1 := run w1 [] (GET req CACHE) in
  let out2 := run w2 [] (GET req2 out1.1.2) in
  In (EvFetch b r) out1.2 -> ok r = true ->
  last out1.2 = Some (EvNow now) ->
  cacheKey req2 = cacheKey req ->
  clock w2 [] - now < TTL ->
  out2.1.1 = out1.1.1 /\ fetch_count out2.2 = 0%nat /\ out2.1.2 = out1.1.2.
Proof.
  intros out1 out2 Hin Hok Hlast Hkey Hage.
  destruct (run_GET_outcome w1 req CACHE b r Hin) as [_ Ho].
  unfold outcome in Ho. rewrite Hok in Ho. fold out1 in Ho.
  destruct (json r) as [j|] eqn:Hj.
  - destruct Ho as (now' & Hlast' & Hresp & Hcache).
    rewrite Hlast in Hlast'. injection Hlast' as <-.
    subst out2. rewrite run_GET, Hkey, Hcache, lookup_insert_eq. simpl.
    apply Z.ltb_lt in Hage. rewrite Hage. simpl.
    rewrite Hresp. repeat split.
  - exfalso. clear Ho out2. subst out1. revert Hin Hlast.
    run_cases w1 req CACHE; intros Hin Hlast.
    + pick_event Hin.
    + apply hist_shape in Hhist as [-> | ->]; pick_event Hin;
        injection Hin as <- <-; congruence.
    + apply hist_shape in Hhist as [-> | ->]; discriminate Hlast.
    + apply hist_shape in Hhist as [-> | ->]; pick_event Hin;
        injection Hin as <- <-; congruence.
    + apply hist_shape in Hhist as [-> | ->]; pick_event Hin.
Qed.

(** X9. What a request never does: it calls the external API at most
    once and reads the clock at most twice; it logs an error only after an
    answer that was not a success, with that answer's raw body, and it
    always logs one then. *)
Theorem handler_trace_bounds (w : World) (req : NextRequest)
    (CACHE : gmap string CacheEntry) :
  let tr := (run w [] (GET req CACHE)).2 in
  (fetch_count tr <= 1)%nat
  /\ (length (List.filter
                (fun ev => match ev with EvNow _ => true | _ => false end) tr)
      <= 2)%nat
  /\ (forall msg detail,
        In (EvLog msg detail) tr ->
        exists b r, In (EvFetch b r) tr /\ ok r = false /\ detail = text r)
  /\ (forall b r,
        In (EvFetch b r) tr -> ok r = false ->
        In (EvLog "Error calling Places API" (text r)) tr).
Proof.
  run_cases w req CACHE.
  1: split; [unfold fetch_count; simpl; lia|]; split; [lia|];
     split; intros ? ? H; pick_event H.
  all: apply hist_shape in Hhist as [-> | ->]; simpl;
    (split; [unfold fetch_count; simpl; lia|]); (split; [lia|]); split.
  all: try (intros ? ? H; pick_event H; fail).
  all: try (intros ? ? H; pick_event H; injection H as <- <-; congruence).
  all: try (intros ? ? H; pick_event H; injection H as <- <-; eauto 10; fail).
  all: intros ? ? H; pick_event H; injection H as <- <-; auto.
Qed.

(** X10. How a request ends.  When the handler returns a response, its
    status is 200 or 500: 500 exactly when a call to the external API was
    answered without success, and a list of places exactly when the status
    is 200.  It throws, returning nothing, exactly when the call was
    rejected or when a success answer had a body that does not parse. *)
Theorem status_reflects_upstream (w : World) (req : NextRequest)
    (CACHE : gmap string CacheEntry) :
  let out := run w [] (GET req CACHE) in
  (forall resp,
      out.1.1 = Answer resp ->
      (status resp = 200 \/ status resp = 500)
      /\ (status resp = 500
          <-> exists b r, In (EvFetch b r) out.2 /\ ok r = false)
      /\ (status resp = 200 <-> exists l, body resp = PlacesBody l))
  /\ (out.1.1 = Throws
      <-> (exists b, In (EvFetchRejected b) out.2)
          \/ (exists b r, In (EvFetch b r) out.2 /\ ok r = true
                          /\ json r = None)).
Proof.
  run_cases w req CACHE.
  - split.
    + intros resp [= <-]; simpl. split; [auto|]. split; [|split; eauto].
      split; [discriminate|]. intros (b & r & H & _). pick_event H.
    + split; [discriminate|].
      intros [(b & H)|(b & r & H & _)]; pick_event H.
  - apply hist_shape in Hhist as [-> | ->]; simpl; split.
    all: try (intros resp [= <-]; simpl; split; [auto|];
              split; [|split; eauto]; split; [discriminate|];
              intros (b & r0 & H & Hr0); pick_event H;
              injection H as <- <-; congruence).
    all: split; [discriminate|];
      intros [(b & H)|(b & r0 & H & _ & Hr0)]; pick_event H;
      injection H as <- <-; congruence.
  - apply hist_shape in Hhist as [-> | ->]; simpl; split;
      try (intros resp H; discriminate H).
    all: split; [intros _|reflexivity]; right; eexists _, r;
      (split; [|split; [exact Hok | exact Hj]]); simpl; auto.
  - apply hist_shape in Hhist as [-> | ->]; simpl; split.
    all: try (intros resp [= <-]; simpl; split; [auto|];
              split; [|split; [discriminate|intros (l & H); discriminate H]];
              split; [|reflexivity]; intros _; eexists _, r;
              split; [|exact Hok]; simpl; auto).
    all: split; [discriminate|];
      intros [(b & H)|(b & r0 & H & Hr0 & _)]; pick_event H;
      injection H as <- <-; congruence.
  - apply hist_shape in Hhist as [-> | ->]; simpl; split;
      try (intros resp H; discriminate H).
    all: split; [intros _|reflexivity]; left; eexists; simpl; auto.
Qed.

(** X11. What is sent upstream: every call of a run, answered or
    rejected, carries the body built from the request, with the text query
    of the request (or the Boston default), a cap of 50 results, and a
    type hint that is never empty: the requested type, or "restaurant"
    when none was given. *)
Theorem outbound_request_shape (w : World) (req : NextRequest)
    (CACHE : gmap string CacheEntry) (b : Body) :
  (exists r, In (EvFetch b r) (run w [] (GET req CACHE)).2)
  \/ In (EvFetchRejected b) (run w [] (GET req CACHE)).2 ->
  b = requestBody (params req)
  /\ textQuery b = default "restaurants in Boston, MA" (searchParams req "q")
  /\ maxResultCount b = 50
  /\ includedType b <> ""
  /\ (searchParams req "type" = None \/ searchParams req "type" = Some ""
      -> includedType b = "restaurant")
  /\ (forall ty, searchParams req "type" = Some ty -> ty <> ""
                 -> includedType b = ty).
Proof.
  intros Hin.
  assert (Hb : b = requestBody (params req)).
  { revert Hin. run_cases w req CACHE.
    1: intros [(r0 & H)|H]; pick_event H.
    all: intros [(r0 & H)|H];
      apply hist_shape in Hhist as [-> | ->]; pick_event H;
      now injection H as <-. }
  subst b. split; [reflexivity|]. split; [reflexivity|]. split; [reflexivity|].
  simpl. split; [|split].
  - destruct (default "" (searchParams req "type")) eqn:E; simpl; discriminate.
  - intros [-> | ->]; reflexivity.
  - intros ty -> Hty. simpl. destruct ty; [contradiction | reflexivity].
Qed.

(** X12. The handler looks at five query parameters and at nothing else:
    two requests that agree on [q], [openNow], [minPrice], [maxPrice] and
    [type] are handled identically, whatever else they carry. *)
Theorem only_five_parameters (req1 req2 : NextRequest)
    (CACHE : gmap string CacheEntry) :
  searchParams req1 "q" = searchParams req2 "q" ->
  searchParams req1 "openNow" = searchParams req2 "openNow" ->
  searchParams req1 "minPrice" = searchParams req2 "minPrice" ->
  searchParams req1 "maxPrice" = searchParams req2 "maxPrice" ->
  searchParams req1 "type" = searchParams req2 "type" ->
  cacheKey req1 = cacheKey req2 /\ GET req1 CACHE = GET req2 CACHE.
Proof.
  intros Hq Ho Hlo Hhi Hty.
  assert (Hp : params req1 = params req2).
  { unfold params. now rewrite Hq, Ho, Hlo, Hhi, Hty. }
  unfold GET, refresh, cacheKey. now rewrite Hp.
Qed.

(** What a cache entry is: the pipeline's result for some request with
    that key and some upstream answer. *)
Lemma reachable_entries (CACHE : gmap string CacheEntry) :
  reachable CACHE ->
  forall k e,
    CACHE !! k = Some e ->
    exists req json,
      k = cacheKey req
      /\ data e = mapped (Params.openNow (params req)) (Params.minPrice (params req))
                    (Params.maxPrice (params req)) json.
Proof.
  induction 1 as [|w req CACHE _ IH]; intros k e.
  - rewrite lookup_empty. discriminate.
  - run_cases w req CACHE; try apply IH.
    destruct (decide (cacheKey req = k)) as [<-|Hne].
    + rewrite lookup_insert_eq. intros [= <-]. simpl. eauto.
    + rewrite lookup_insert_ne by exact Hne. apply IH.
Qed.

(** X13. An invariant of the cache over the life of the process.  In
    every cache the handler can have built from the empty one, each entry
    holds the pipeline's result for a request with the entry's key; so
    whatever list is served from such a cache, hit or refresh, was computed
    by the pipeline for a request with the same key, and all its price
    tiers are among 0 to 4. *)
Theorem reachable_cache_invariant (CACHE : gmap string CacheEntry)
    (w : World) (req : NextRequest) (resp : NextResponse) (l : list Place.t) :
  reachable CACHE ->
  (run w [] (GET req CACHE)).1.1 = Answer resp ->
  body resp = PlacesBody l ->
  (exists req' json,
      cacheKey req' = cacheKey req
      /\ l = mapped (Params.openNow (params req')) (Params.minPrice (params req'))
                (Params.maxPrice (params req')) json)
  /\ tiers_ok l.
Proof.
  intros Hreach Hresp Hbody.
  assert (H : exists req' json,
             cacheKey req' = cacheKey req
             /\ l = mapped (Params.openNow (params req'))
                      (Params.minPrice (params req'))
                      (Params.maxPrice (params req')) json).
  { revert Hresp. run_cases w req CACHE; intros Hresp;
      try discriminate Hresp; injection Hresp as <-; simpl in Hbody.
    - injection Hbody as <-.
      destruct (reachable_entries _ Hreach _ _ Hc) as (req' & json & Hk & Hd).
      exists req', json. split; [now symmetry | exact Hd].
    - injection Hbody as <-. eauto.
    - discriminate Hbody. }
  split; [exact H|].
  destruct H as (req' & json & _ & ->). apply mapped_tiers.
Qed.

(** X21. A request without price bounds and without [openNow=true], such
    as the one the client sends, is not filtered at all: provided the
    runtime reads "0" and "4" as the numbers 0 and 4, a call answered
    with a success response whose body parses is answered with every
    operating record of that body, normalised. *)
Theorem unfiltered_request_returns_all_operating (w : World) (req : NextRequest)
    (CACHE : gmap string CacheEntry) (b : Body) (r : Response)
    (j : PlaceResponse) :
  Number "0" = num 0 -> Number "4" = num 4 ->
  searchParams req "minPrice" = None ->
  searchParams req "maxPrice" = None ->
  searchParams req "openNow" <> Some "true" ->
  In (EvFetch b r) (run w [] (GET req CACHE)).2 -> ok r = true ->
  json r = Some j ->
  (run w [] (GET req CACHE)).1.1
  = Answer {| body := PlacesBody (normalize j); status := 200 |}.
Proof.
  intros H0 H4 Hlo Hhi Ho Hin Hok Hj.
  destruct (run_GET_outcome w req CACHE b r Hin) as [_ Hout].
  unfold outcome in Hout. rewrite Hok, Hj in Hout.
  destruct Hout as (now & _ & -> & _). f_equal. f_equal. f_equal.
  unfold params; simpl. rewrite Hlo, Hhi; simpl. rewrite H0, H4.
  assert (Hopen : match searchParams req "openNow" with
                  | Some s => String.eqb s "true"
                  | None => false
                  end = false).
  { destruct (searchParams req "openNow") as [s|]; [|reflexivity].
    destruct (String.eqb s "true") eqn:E; [|reflexivity].
    apply String.eqb_eq in E. subst s. now destruct Ho. }
  rewrite Hopen. unfold mapped.
  rewrite price_filter_full_range by solve_num_le.
  apply filter_id, List.Forall_forall. reflexivity.
Qed.

End Handler.

(** ** The type options, continued *)

Lemma elem_of_availableTypes (data : list Place.t) (x : string) :
  x ∈ availableTypes data <-> exists p, p ∈ data /\ x ∈ Place.types p.
Proof.
  unfold availableTypes, sort.
  destruct (fold_types data [] (NoDup_nil_2 (A:=string))) as [_ Hin].
  rewrite merge_sort_Permutation, Hin, elem_of_nil.
  split; [intros [[]|H]; exact H | auto].
Qed.

Lemma availableTypes_sorted_NoDup (data : list Place.t) :
  StronglySorted String.le (availableTypes data) /\ NoDup (availableTypes data).
Proof.
  unfold availableTypes, sort.
  destruct (fold_types data [] (NoDup_nil_2 (A:=string))) as [Hnd _].
  split; [apply StronglySorted_merge_sort; apply _|].
  now rewrite merge_sort_Permutation.
Qed.

(** X14. The type options depend on the set of labels only: two lists of
    records in which the same labels occur give the same options, in the
    same order; so reordering or repeating records changes nothing. *)
Theorem availableTypes_depends_on_labels (data1 data2 : list Place.t) :
  (forall x : string,
      (exists p, p ∈ data1 /\ x ∈ Place.types p)
      <-> (exists p, p ∈ data2 /\ x ∈ Place.types p)) ->
  availableTypes data1 = availableTypes data2.
Proof.
  intros H.
  destruct (availableTypes_sorted_NoDup data1) as [Hs1 Hn1].
  destruct (availableTypes_sorted_NoDup data2) as [Hs2 Hn2].
  apply (StronglySorted_unique String.le); [exact Hs1 | exact Hs2 |].
  apply NoDup_Permutation; [exact Hn1 | exact Hn2 |].
  intros x. now rewrite !elem_of_availableTypes.
Qed.

(** ** The client filter, continued *)

Lemma filter_idem {A} (f : A -> bool) (l : list A) :
  List.filter f (List.filter f l) = List.filter f l.
Proof.
  induction l as [|x l IH]; simpl; [reflexivity|].
  destruct (f x) eqn:E; simpl; [rewrite E|]; now rewrite ?IH.
Qed.

Section Client.

Context {R : Runtime}.

Lemma type_rejects_spec (ty : string) (p : Place.t) :
  type_rejects ty p = false <-> ty = "" \/ In ty (Place.types p).
Proof.
  unfold type_rejects. destruct ty as [|c ty]; simpl.
  - split; auto.
  - rewrite negb_false_iff, list_includes_spec, list_elem_of_In.
    split; [auto | intros [H|H]; [discriminate H | exact H]].
Qed.

Lemma name_rejects_spec (s : string) (p : Place.t) :
  name_rejects s p = false <-> s = "" \/ ci_substring s (Place.name p).
Proof.
  unfold name_rejects, ci_substring. destruct s as [|c s]; simpl.
  - split; auto.
  - rewrite negb_false_iff, string_includes_spec.
    split; [auto | intros [H|H]; [discriminate H | exact H]].
Qed.

Lemma open_rejects_spec (b : bool) (p : Place.t) :
  open_rejects b p = false <-> (b = true -> Place.open_now p <> Some false).
Proof.
  unfold open_rejects.
  destruct b, (Place.open_now p) as [[]|]; simpl; split; try congruence;
    try (intros H; now destruct (H eq_refl)).
Qed.

Lemma keep_true (f : FilterState) (p : Place.t) :
  keep f p = true
  <-> name_rejects (search f) p = false
      /\ open_rejects (openNowOnly f) p = false
      /\ price_rejects (priceRange f) p = false
      /\ type_rejects (selectedType f) p = false.
Proof.
  rewrite keep_spec, !andb_true_iff, !negb_true_iff. tauto.
Qed.

(** X15. What the chart receives: a record is in the filtered list exactly
    when it is in the data and passes the four filters together: the
    search string is empty or occurs in its name ignoring case; open-now
    is off or its flag is not explicitly false; its tier is neither below
    the lower nor above the upper bound; no type is selected or the
    selected type is one of its types. *)
Theorem filtered_exactly (data : list Place.t) (f : FilterState) (p : Place.t) :
  In p (filtered data f)
  <-> In p data
      /\ (search f = "" \/ ci_substring (search f) (Place.name p))
      /\ (openNowOnly f = true -> Place.open_now p <> Some false)
      /\ js_lt (Place.price_level p) (fst (priceRange f)) = false
      /\ js_lt (snd (priceRange f)) (Place.price_level p) = false
      /\ (selectedType f = "" \/ In (selectedType f) (Place.types p)).
Proof.
  unfold filtered. rewrite filter_In, keep_true.
  rewrite name_rejects_spec, open_rejects_spec, type_rejects_spec.
  unfold price_rejects, js_gt. rewrite orb_false_iff. tauto.
Qed.

(** X16. The type filter is an exact match on the labels: with a type
    selected, a record passes when that very label is among its types
    (there is no substring or case folding); with none selected every
    record passes; in the whole filter the selection contributes this test
    only. *)
Theorem type_filter_exact (ty : string) (f : FilterState) (p : Place.t) :
  (type_rejects ty p = false <-> ty = "" \/ In ty (Place.types p))
  /\ (keep (setSelectedType ty f) p = true
      <-> (ty = "" \/ In ty (Place.types p))
          /\ keep (setSelectedType "" f) p = true).
Proof.
  split; [apply type_rejects_spec|].
  rewrite !keep_true; simpl. rewrite type_rejects_spec.
  change (type_rejects "" p) with false. tauto.
Qed.

(** X17. Filtering keeps the records in their order and adds none: the
    filtered list is a subsequence of the data, never longer than it, and
    filtering it again with the same filters changes nothing. *)
Theorem filtered_subsequence_idempotent (data : list Place.t) (f : FilterState) :
  sublist (filtered data f) data
  /\ (length (filtered data f) <= length data)%nat
  /\ filtered (filtered data f) f = filtered data f.
Proof.
  unfold filtered. split; [apply filter_sublist|].
  split; [apply sublist_length, filter_sublist | apply filter_idem].
Qed.

(** X18. The options and the type filter fit together.  A non-empty label
    that is not among the options selects nothing, whatever the other
    filters are; every option selects at least one record when the other
    filters are at their defaults and the data satisfies the invariants of
    the data model. *)
Theorem options_match_type_filter (data : list Place.t) (ty : string) :
  (forall f, ty <> "" -> ~ In ty (availableTypes data) ->
             filtered data (setSelectedType ty f) = [])
  /\ (In ty (availableTypes data) -> Forall place_inv data ->
      filtered data (setSelectedType ty defaultFilters) <> []).
Proof.
  split.
  - intros f Hty Hnot. apply filter_nil. intros p Hp.
    destruct (keep (setSelectedType ty f) p) eqn:E; [|reflexivity].
    apply keep_true in E as (_ & _ & _ & E). simpl in E.
    apply type_rejects_spec in E as [E|E]; [contradiction|].
    destruct Hnot. apply list_elem_of_In, elem_of_availableTypes.
    exists p. now rewrite !list_elem_of_In.
  - intros Hin Hinv.
    apply list_elem_of_In, elem_of_availableTypes in Hin as (p & Hp & Hty).
    rewrite list_elem_of_In in Hp. rewrite list_elem_of_In in Hty.
    assert (Hk : In p (filtered data (setSelectedType ty defaultFilters))).
    { apply filter_In. split; [exact Hp|]. apply keep_true; simpl.
      rewrite List.Forall_forall in Hinv.
      destruct (Hinv p Hp) as (H0 & H4 & _).
      destruct (num_le_not_NaN _ _ H0) as [_ Hn].
      split; [reflexivity|]. split; [reflexivity|].
      split; [apply price_rejects_spec; auto|].
      apply type_rejects_spec. now right. }
    intros E. rewrite E in Hk. contradiction.
Qed.

Lemma keep_mapped (openNow : bool) (lo hi : number) (json : PlaceResponse)
    (f : FilterState) (p : Place.t) :
  search f = "" -> selectedType f = "" ->
  (openNowOnly f = false
   /\ priceRange f = (num 0, num 4)
   \/ openNowOnly f = openNow /\ priceRange f = (lo, hi)) ->
  In p (mapped openNow lo hi json) -> keep f p = true.
Proof.
  intros Hs Hty Hf Hp. apply keep_true. rewrite Hs, Hty.
  split; [reflexivity|]. split; [|split; [|reflexivity]].
  - destruct Hf as [[-> _]|[-> _]]; [reflexivity|].
    apply in_mapped in Hp as (_ & _ & Hopen). unfold server_open_ok in Hopen.
    unfold open_rejects. destruct openNow; [|reflexivity].
    now destruct (Place.open_now p) as [[]|].
  - destruct Hf as [[_ ->]|[_ ->]].
    + pose proof (mapped_tiers openNow lo hi json) as Ht.
      unfold tiers_ok in Ht. rewrite List.Forall_forall in Ht.
      destruct (is_tier_range _ (Ht p Hp)) as [H0 H4].
      destruct (num_le_not_NaN _ _ H0) as [_ Hn].
      apply price_rejects_spec; auto.
    + apply in_mapped in Hp as (_ & Hprice & _).
      apply server_price_ok_spec in Hprice as [H1 H2].
      destruct (num_le_not_NaN _ _ H1) as [Hn1 Hn].
      destruct (num_le_not_NaN _ _ H2) as [_ Hn2].
      apply price_rejects_spec; auto.
Qed.

(** X19. Server and client filters compose without loss: the client,
    with its default filters or with the open-now flag and price range the
    server was asked for, shows every record of the list the server
    computed, unchanged and in order. *)
Theorem client_shows_server_list (openNow : bool) (lo hi : number)
    (json : PlaceResponse) :
  filtered (mapped openNow lo hi json) defaultFilters
  = mapped openNow lo hi json
  /\ filtered (mapped openNow lo hi json)
       {| search := ""; openNowOnly := openNow;
          priceRange := (lo, hi); selectedType := "" |}
     = mapped openNow lo hi json.
Proof.
  split; apply filter_id, List.Forall_forall; intros p Hp;
    apply (keep_mapped openNow lo hi json); auto.
Qed.

(** X20. The first load, end to end.  The component mounted without
    initial data, after its request was answered by a server whose cache
    is reachable, is no longer loading; it holds and shows exactly the
    list of a 200 answer, and holds and shows nothing after an error answer
    or when the request or the parsing threw.  Mounted with initial data,
    it ignores the fetch altogether. *)
Theorem first_load_end_to_end (w : World) (req : NextRequest)
    (CACHE : gmap string CacheEntry) (resp : NextResponse) :
  reachable CACHE ->
  (run w [] (GET req CACHE)).1.1 = Answer resp ->
  let v := load None (Parsed (parsedBody resp)) (initialView None) in
  View.loading v = false
  /\ (forall l, body resp = PlacesBody l -> View.data v = l /\ shown v = l)
  /\ (forall e, body resp = ErrorBody e -> View.data v = [] /\ shown v = [])
  /\ (let v' := load None Thrown (initialView None) in
      View.loading v' = false /\ View.data v' = [] /\ shown v' = [])
  /\ (forall l fetched,
        load (Some l) fetched (initialView (Some l)) = initialView (Some l)).
Proof.
  intros Hreach Hresp v. subst v. unfold load, parsedBody, shown; simpl.
  split; [now destruct (body resp)|]. split; [|split; [|split]].
  - intros l Hl. rewrite Hl; simpl. split; [reflexivity|].
    assert (Ht : exists req' json,
               l = mapped (Params.openNow (params req'))
                     (Params.minPrice (params req'))
                     (Params.maxPrice (params req')) json).
    { revert Hresp. run_cases w req CACHE; intros Hresp;
        try discriminate Hresp; injection Hresp as <-; simpl in Hl.
      - injection Hl as <-.
        destruct (reachable_entries _ Hreach _ _ Hc) as (req' & json & _ & Hd).
        exists req', json. exact Hd.
      - injection Hl as <-. exists req, j. reflexivity.
      - discriminate Hl. }
    destruct Ht as (req' & json & ->).
    apply filter_id, List.Forall_forall. intros p Hp.
    eapply keep_mapped;
      [reflexivity | reflexivity | left; split; reflexivity | exact Hp].
  - intros e He. rewrite He; simpl. split; reflexivity.
  - repeat split.
  - reflexivity.
Qed.

End Client.

(** ** Instances of the further properties *)

Lemma mapped_exactly_witness :
  In Example.place_a (mapped true (num 1) (num 3) Example.json_up).
Proof.
  apply (proj2 (mapped_exactly true (num 1) (num 3) Example.json_up
                  Example.place_a)).
  exists Example.raw_a.
  split; [left; reflexivity|]. split; [reflexivity|]. split; [reflexivity|].
  split; [solve_num_le|]. split; [solve_num_le|]. intros _. discriminate.
Defined.

Lemma mapped_monotone_witness :
  num_le (num 0) (num 1) /\ num_le (num 3) (num 4)
  /\ sublist (mapped true (num 1) (num 3) Example.json_up)
             (mapped false (num 0) (num 4) Example.json_up).
Proof.
  assert (H0 : num_le (num 0) (num 1)) by solve_num_le.
  assert (H4 : num_le (num 3) (num 4)) by solve_num_le.
  split; [exact H0|]. split; [exact H4|].
  apply (mapped_monotone true false (num 1) (num 3) (num 0) (num 4)
           Example.json_up H0 H4).
  intros H. discriminate H.
Defined.

Lemma mapped_degenerate_range_witness :
  is_NaN NaN = true
  /\ mapped false NaN (num 4) Example.json_up = [].
Proof.
  split; [reflexivity|].
  apply (mapped_degenerate_range false NaN (num 4) Example.json_up).
  left. reflexivity.
Defined.

Lemma mapped_full_range_witness :
  num_le (num 0) (num 0) /\ num_le (num 4) (num 4)
  /\ mapped false (num 0) (num 4) Example.json_up
     = normalize Example.json_up.
Proof.
  assert (H0 : num_le (num 0) (num 0)) by solve_num_le.
  assert (H4 : num_le (num 4) (num 4)) by solve_num_le.
  split; [exact H0|]. split; [exact H4|].
  exact (mapped_full_range (num 0) (num 4) Example.json_up H0 H4).
Defined.

Lemma handler_touches_only_its_key_witness :
  let key := cacheKey (R := Example.runtime) Example.req_sushi in
  let out :=
    run Example.world_up []
      (GET (R := Example.runtime) Example.req_sushi
         {[ "other" := Example.entry ]}) in
  "other" <> key /\ out.1.2 !! "other" = Some Example.entry.
Proof.
  intros key out.
  assert (Hne : "other" <> key) by (vm_compute; discriminate).
  split; [exact Hne|].
  destruct (handler_touches_only_its_key (R := Example.runtime)
              Example.world_up Example.req_sushi
              {[ "other" := Example.entry ]}) as [Hother _].
  fold out key in Hother. rewrite (Hother "other" Hne).
  apply lookup_singleton_eq.
Defined.

Lemma success_response_is_cached_witness :
  let out :=
    run Example.world_up []
      (GET (R := Example.runtime) Example.req_sushi ∅) in
  let resp := {| body := PlacesBody [Example.place_a]; status := 200 |} in
  out.1.1 = Answer resp
  /\ status resp = 200
  /\ exists e,
       out.1.2 !! cacheKey (R := Example.runtime) Example.req_sushi = Some e
       /\ body resp = PlacesBody (data e).
Proof.
  intros out resp.
  assert (Hr : out.1.1 = Answer resp) by reflexivity.
  assert (H : status resp = 200) by reflexivity.
  split; [exact Hr|]. split; [exact H|].
  exact (success_response_is_cached (R := Example.runtime) Example.world_up
           Example.req_sushi ∅ resp Hr H).
Defined.

Lemma store_then_hit_witness :
  let later : World :=
    {| clock := fun _ => 100002000; upstream := upstream Example.world_down |} in
  let out1 :=
    run Example.world_up []
      (GET (R := Example.runtime) Example.req_sushi ∅) in
  let out2 :=
    run later [] (GET (R := Example.runtime) Example.req_sushi out1.1.2) in
  ok Example.response_up = true
  /\ clock later [] - 100001000 < TTL
  /\ out2.1.1 = out1.1.1 /\ fetch_count out2.2 = 0%nat /\ out2.1.2 = out1.1.2.
Proof.
  intros later out1 out2.
  split; [reflexivity|]. split; [reflexivity|].
  apply (store_then_hit (R := Example.runtime) Example.world_up later
           Example.req_sushi Example.req_sushi ∅
           (requestBody (params (R := Example.runtime) Example.req_sushi))
           Example.response_up 100001000).
  - left. reflexivity.
  - reflexivity.
  - reflexivity.
  - reflexivity.
  - reflexivity.
Defined.

Lemma handler_trace_bounds_witness :
  let tr :=
    (run Example.world_down []
       (GET (R := Example.runtime) Example.req_sushi ∅)).2 in
  ok Example.response_down = false
  /\ In (EvLog "Error calling Places API" "quota exceeded") tr.
Proof.
  intros tr. split; [reflexivity|].
  destruct (handler_trace_bounds (R := Example.runtime) Example.world_down
              Example.req_sushi ∅) as (_ & _ & _ & Hlog).
  apply (Hlog (requestBody (params (R := Example.runtime) Example.req_sushi))
           Example.response_down).
  - left. reflexivity.
  - reflexivity.
Defined.

Lemma status_reflects_upstream_witness :
  let handle := GET (R := Example.runtime) Example.req_sushi in
  let down := run Example.world_down [] (handle ∅) in
  let garbled := run Example.world_garbled [] (handle ∅) in
  let unreachable := run Example.world_unreachable [] (handle ∅) in
  (down.1.1 = Answer {| body := ErrorBody "quota exceeded"; status := 500 |}
   /\ exists b r, In (EvFetch b r) down.2 /\ ok r = false)
  /\ garbled.1.1 = Throws
  /\ unreachable.1.1 = Throws.
Proof.
  intros handle down garbled unreachable.
  split; [|split].
  - assert (Hr : down.1.1
                 = Answer {| body := ErrorBody "quota exceeded";
                             status := 500 |}) by reflexivity.
    split; [exact Hr|].
    destruct (proj1 (status_reflects_upstream (R := Example.runtime)
                       Example.world_down Example.req_sushi ∅) _ Hr)
      as (_ & H500 & _).
    apply H500. reflexivity.
  - apply (proj2 (status_reflects_upstream (R := Example.runtime)
                    Example.world_garbled Example.req_sushi ∅)).
    right.
    exists (requestBody (params (R := Example.runtime) Example.req_sushi)),
      Example.response_garbled.
    split; [left; reflexivity|]. split; reflexivity.
  - apply (proj2 (status_reflects_upstream (R := Example.runtime)
                    Example.world_unreachable Example.req_sushi ∅)).
    left.
    exists (requestBody (params (R := Example.runtime) Example.req_sushi)).
    left. reflexivity.
Defined.

Lemma outbound_request_shape_witness :
  let b := requestBody (params (R := Example.runtime) Example.req_sushi) in
  (textQuery b = "sushi" /\ maxResultCount b = 50 /\ includedType b <> "")
  /\ In (EvFetchRejected b)
        (run Example.world_unreachable []
           (GET (R := Example.runtime) Example.req_sushi ∅)).2.
Proof.
  intros b. split.
  - destruct (outbound_request_shape (R := Example.runtime) Example.world_up
                Example.req_sushi ∅ b)
      as (_ & Hq & Hcap & Hty & _).
    + left. exists Example.response_up. left. reflexivity.
    + split; [exact Hq|]. split; [exact Hcap | exact Hty].
  - assert (Hin : In (EvFetchRejected b)
                    (run Example.world_unreachable []
                       (GET (R := Example.runtime) Example.req_sushi ∅)).2)
      by (left; reflexivity).
    destruct (outbound_request_shape (R := Example.runtime)
                Example.world_unreachable Example.req_sushi ∅ b
                (or_intror Hin)) as (_ & _).
    exact Hin.
Defined.

Lemma only_five_parameters_witness :
  let paged : NextRequest :=
    {| searchParams := fun k =>
         if String.eqb k "page" then Some "2"
         else searchParams Example.req_sushi k |} in
  cacheKey (R := Example.runtime) Example.req_sushi
  = cacheKey (R := Example.runtime) paged
  /\ GET (R := Example.runtime) Example.req_sushi ∅
     = GET (R := Example.runtime) paged ∅.
Proof.
  intros paged.
  apply (only_five_parameters (R := Example.runtime) Example.req_sushi paged ∅);
    reflexivity.
Defined.

Lemma reachable_cache_invariant_witness :
  let handle := GET (R := Example.runtime) Example.req_sushi in
  let stored := (run Example.world_up [] (handle ∅)).1.2 in
  let later : World :=
    {| clock := fun _ => 100002000; upstream := upstream Example.world_down |} in
  let hit := run later [] (handle stored) in
  reachable (R := Example.runtime) stored
  /\ fetch_count hit.2 = 0%nat
  /\ hit.1.1 = Answer {| body := PlacesBody [Example.place_a]; status := 200 |}
  /\ tiers_ok [Example.place_a].
Proof.
  intros handle stored later hit.
  assert (H : reachable (R := Example.runtime) stored)
    by (apply (reachable_GET (R := Example.runtime)); constructor).
  assert (Hhit : hit.1.1
                 = Answer {| body := PlacesBody [Example.place_a];
                             status := 200 |}) by reflexivity.
  split; [exact H|]. split; [reflexivity|]. split; [exact Hhit|].
  exact (proj2 (reachable_cache_invariant (R := Example.runtime) stored later
                  Example.req_sushi _ [Example.place_a] H Hhit eq_refl)).
Defined.

Lemma unfiltered_request_returns_all_operating_witness :
  let req : NextRequest := {| searchParams := fun _ => None |} in
  Number (Runtime := Example.runtime) "0" = num 0
  /\ Number (Runtime := Example.runtime) "4" = num 4
  /\ json Example.response_up = Some Example.json_up
  /\ (run Example.world_up [] (GET (R := Example.runtime) req ∅)).1.1
     = Answer {| body := PlacesBody (normalize Example.json_up);
                 status := 200 |}.
Proof.
  intros req. split; [reflexivity|]. split; [reflexivity|].
  split; [reflexivity|].
  apply (unfiltered_request_returns_all_operating (R := Example.runtime)
           Example.world_up req ∅
           (requestBody (params (R := Example.runtime) req))
           Example.response_up Example.json_up).
  - reflexivity.
  - reflexivity.
  - reflexivity.
  - reflexivity.
  - discriminate.
  - left. reflexivity.
  - reflexivity.
  - reflexivity.
Defined.

Lemma availableTypes_depends_on_labels_witness :
  availableTypes [Example.place_a; Example.place_c]
  = availableTypes [Example.place_c; Example.place_a; Example.place_a].
Proof.
  apply availableTypes_depends_on_labels.
  intros x. split; intros (p & Hp & Hx); exists p; (split; [|exact Hx]);
    revert Hp; rewrite !elem_of_cons, !elem_of_nil; tauto.
Defined.

Lemma filtered_exactly_witness :
  In Example.place_a
     (filtered (R := Example.runtime) [Example.place_a; Example.place_c]
        (setSearch "SUSHI" defaultFilters)).
Proof.
  apply (proj2 (filtered_exactly (R := Example.runtime)
                  [Example.place_a; Example.place_c]
                  (setSearch "SUSHI" defaultFilters) Example.place_a)).
  split; [left; reflexivity|].
  split; [right; exists "", " bar"; reflexivity|].
  split; [intros H; discriminate H|].
  split; [reflexivity|]. split; [reflexivity|]. left. reflexivity.
Defined.

Lemma options_match_type_filter_witness :
  In "sushi" (availableTypes [Example.place_a; Example.place_c])
  /\ Forall place_inv [Example.place_a; Example.place_c]
  /\ filtered (R := Example.runtime) [Example.place_a; Example.place_c]
       (setSelectedType "sushi" defaultFilters) <> []
  /\ filtered (R := Example.runtime) [Example.place_a; Example.place_c]
       (setSelectedType "pizza" defaultFilters) = [].
Proof.
  assert (Hin : In "sushi" (availableTypes [Example.place_a; Example.place_c]))
    by (vm_compute; tauto).
  assert (Hinv : Forall place_inv [Example.place_a; Example.place_c])
    by (repeat constructor; solve_num_le).
  split; [exact Hin|]. split; [exact Hinv|].
  split.
  - exact (proj2 (options_match_type_filter (R := Example.runtime)
                    [Example.place_a; Example.place_c] "sushi") Hin Hinv).
  - apply (proj1 (options_match_type_filter (R := Example.runtime)
                    [Example.place_a; Example.place_c] "pizza") defaultFilters).
    + discriminate.
    + vm_compute. intros [H|[H|[H|[]]]]; discriminate H.
Defined.

Lemma first_load_end_to_end_witness :
  let resp := {| body := PlacesBody [Example.place_a]; status := 200 |} in
  let v := load None (Parsed (parsedBody resp)) (initialView None) in
  reachable (R := Example.runtime) ∅
  /\ (run Example.world_up []
        (GET (R := Example.runtime) Example.req_sushi ∅)).1.1 = Answer resp
  /\ View.loading v = false
  /\ shown (R := Example.runtime) v = [Example.place_a].
Proof.
  intros resp v.
  assert (H : reachable (R := Example.runtime) ∅) by constructor.
  assert (Hr : (run Example.world_up []
                  (GET (R := Example.runtime) Example.req_sushi ∅)).1.1
               = Answer resp) by reflexivity.
  split; [exact H|]. split; [exact Hr|].
  destruct (first_load_end_to_end (R := Example.runtime) Example.world_up
              Example.req_sushi ∅ resp H Hr) as (Hload & Hok & _).
  split; [exact Hload|].
  exact (proj2 (Hok [Example.place_a] eq_refl)).
Defined.
